(** * server.js: the single-flight send gate of the e-mail relay

    A shallow embedding of [src/server.js].  The three module-level variables
    [isSending], [stopRequested] and [emailCount] become a record that every
    handler threads explicitly; an [async] handler is cut at each [await] into
    the synchronous turns the event loop runs to completion, and the calls it
    makes to nodemailer and to the HTTP response are recorded as a list of
    effects. *)

From Stdlib Require Import ZArith List String Ascii Bool Lia.
Import ListNotations.
Local Open Scope string_scope.
Local Open Scope Z_scope.
Set Warnings "-register-all".

(** ** JavaScript values *)

(** The values a parsed JSON body can hold, plus [undefined] for an absent
    property.  Strings are kept as byte strings (UTF-8); the only characters
    the handlers look for are ASCII, so searching bytes and searching UTF-16
    code units agree.  [VNum] carries the integers the program counts with. *)
Inductive JsVal : Type :=
| VUndef
| VNull
| VBool (b : bool)
| VNum (n : Z)
| VStr (s : string)
| VArr (items : list JsVal)
| VObj (props : list (string * JsVal)).

(** ToBoolean: [undefined], [null], [false], [0] and the empty string are
    falsy; arrays and objects are always truthy. *)
Definition truthy (v : JsVal) : bool :=
  match v with
  | VUndef | VNull => false
  | VBool b => b
  | VNum n => negb (n =? 0)
  | VStr s => negb (s =? "")%string
  | VArr _ | VObj _ => true
  end.

(** [a || b] on values. *)
Definition js_or (a b : JsVal) : JsVal := if truthy a then a else b.

(** Own-property lookup in an object literal. *)
Fixpoint lookup (k : string) (props : list (string * JsVal)) : option JsVal :=
  match props with
  | [] => None
  | (k', v) :: rest => if (k =? k')%string then Some v else lookup k rest
  end.

(** Following a path of keys through nested objects. *)
Fixpoint get_path (path : list string) (v : JsVal) : option JsVal :=
  match path with
  | [] => Some v
  | k :: rest =>
      match v with
      | VObj props =>
          match lookup k props with
          | Some v' => get_path rest v'
          | None => None
          end
      | _ => None
      end
  end.

(** ** Strings *)

Definition LF : string := String (ascii_of_nat 10) EmptyString.

(** [s.includes(needle)] *)
Fixpoint includes (s needle : string) : bool :=
  prefix needle s ||
  match s with
  | EmptyString => false
  | String _ s' => includes s' needle
  end.

(** [s.replace(/\n/g, '<br>')]: every line feed becomes the four characters
    of the marker, everything else is copied. *)
Fixpoint replace_newlines (s : string) : string :=
  match s with
  | EmptyString => EmptyString
  | String c s' =>
      if (c =? ascii_of_nat 10)%char
      then "<br>" ++ replace_newlines s'
      else String c (replace_newlines s')
  end.

(** ** Module state (lines 11-15) *)

(** [emailCount] only ever holds an integer; it is kept as a [Z]
    (increments are exact throughout JavaScript's safe-integer range). *)
Record Globals : Type := {
  isSending : bool;
  stopRequested : bool;
  emailCount : Z
}.

Definition initial : Globals :=
  {| isSending := false; stopRequested := false; emailCount := 0 |}.

Definition set_isSending (b : bool) (g : Globals) : Globals :=
  {| isSending := b; stopRequested := stopRequested g; emailCount := emailCount g |}.

Definition set_stopRequested (b : bool) (g : Globals) : Globals :=
  {| isSending := isSending g; stopRequested := b; emailCount := emailCount g |}.

(** [emailCount++] *)
Definition incr_emailCount (g : Globals) : Globals :=
  {| isSending := isSending g; stopRequested := stopRequested g;
     emailCount := emailCount g + 1 |}.

(** ** Errors and completions *)

(** What a [catch] clause inspects of the thrown object: its [code] and its
    [message], either of which may be [undefined]. *)
Record JsError : Type := {
  code : option string;
  message : option string
}.

(** [new Error(msg)] and the engine's [TypeError]s carry no [code]. *)
Definition Error (msg : string) : JsError :=
  {| code := None; message := Some msg |}.

(** A block either finishes normally or throws. *)
Inductive Completion (A : Type) : Type :=
| Normal (a : A)
| Throw (error : JsError).
Arguments Normal {A} a.
Arguments Throw {A} error.

Definition bind {A B : Type} (c : Completion A) (k : A -> Completion B)
  : Completion B :=
  match c with
  | Normal a => k a
  | Throw e => Throw e
  end.

Notation "x <- c ;; k" := (bind c (fun x => k))
  (at level 61, c at next level, right associativity).

(** The settlement of a promise the handler awaited. *)
Inductive Settled (A : Type) : Type :=
| Resolved (value : A)
| Rejected (error : JsError).
Arguments Resolved {A} value.
Arguments Rejected {A} error.

(** The [info] object [sendMail] resolves with. *)
Record Info : Type := { messageId : JsVal }.

(** ** Requests *)

(** [req.body] after [express.json()], read through the destructuring of
    lines 121 and 253: an absent property is [VUndef].  [attachments] is
    either absent ([None]) or an array, the shape the API documents. *)
Record Body : Type := {
  user : JsVal;
  password : JsVal;
  from : JsVal;
  to : JsVal;
  subject : JsVal;
  text : JsVal;
  html : JsVal;
  attachments : option (list JsVal)
}.

(** ** Effects *)

(** What a handler turn does to the outside world, in program order. *)
Inductive Effect : Type :=
| CreateTransport (options : JsVal)        (* nodemailer.createTransport(...) *)
| Verify                                    (* transporter.verify()            *)
| SendMail (mailOptions : JsVal)            (* transporter.sendMail(...)       *)
| Respond (status : Z) (body : JsVal)       (* res.status(...).json(...)       *)
| UnhandledRejection.                       (* the handler's promise rejected  *)

(** Where a suspended handler is waiting. *)
Inductive Pending : Type :=
| AwaitVerify (mailOptions : JsVal)         (* /send-gmail, line 170        *)
| AwaitSendMail                             (* /send-gmail, line 178        *)
| AwaitSendMailSimple.                      (* /send-gmail-simple, line 296 *)

(** One synchronous turn of a handler: the module state it leaves, what it
    did, and where it is suspended if it has not finished. *)
Record Outcome : Type := {
  out_globals : Globals;
  out_effects : list Effect;
  out_pending : option Pending
}.

Definition done (g : Globals) (effects : list Effect) : Outcome :=
  {| out_globals := g; out_effects := effects; out_pending := None |}.

Definition suspend (g : Globals) (effects : list Effect) (p : Pending) : Outcome :=
  {| out_globals := g; out_effects := effects; out_pending := Some p |}.

(** ** Response texts *)

Definition msg_busy : string :=
  "Já existe um envio em andamento. Aguarde ou cancele o envio atual.".
Definition msg_incomplete : string :=
  "Dados incompletos. Verifique user, password, to, subject e text.".
Definition msg_interrupted : string := "Envios interrompidos pelo usuário".
Definition msg_auth : string :=
  "Erro de autenticação. Verifique o e-mail e senha de app.".
Definition msg_envelope : string :=
  "Erro no envelope do e-mail. Verifique os destinatários.".
Definition msg_login : string :=
  "Login inválido. Verifique as credenciais do Gmail.".
Definition msg_certificate : string :=
  "Erro de certificado. Tente usar secure: false na configuração.".
Definition msg_quota : string :=
  "📧 Limite diário do Gmail atingido! ⚠️" ++ LF ++ LF ++
  "Você atingiu o limite de envios do Gmail para hoje." ++ LF ++
  "Por favor, aguarde até amanhã para continuar enviando e-mails.".
Definition msg_blocked : string :=
  "📧 E-mail bloqueado pelo Gmail! ⚠️" ++ LF ++ LF ++
  "O Gmail detectou atividade incomum e bloqueou o envio." ++ LF ++
  "Aguarde algumas horas ou tente novamente amanhã.".
Definition msg_sent : string := "E-mail enviado com sucesso!".
Definition msg_stop_requested : string := "Parada de envio solicitada. Aguarde...".
Definition msg_nothing_to_stop : string := "Nenhum envio em andamento".
Definition msg_status_error : string := "Erro ao obter status do servidor".

(** ** Response bodies *)

(** The two-key object of the early exits (lines 110-113, 126-129, 243-246,
    257-260) and of /stop-sending. *)
Definition plain_body (success : bool) (msg : string) : JsVal :=
  VObj [("success", VBool success); ("message", VStr msg)].

(** The object the [catch] blocks send (lines 223-228, 326-331). *)
Definition failure_body (errorMessage : string) (shouldWait interrupted : bool)
  : JsVal :=
  VObj [("success", VBool false);
        ("message", VStr errorMessage);
        ("shouldWait", VBool shouldWait);
        ("interrupted", VBool interrupted)].

(** The object of the success path (lines 185-190, 303-308). *)
Definition success_body (result : Info) (count : Z) : JsVal :=
  VObj [("success", VBool true);
        ("message", VStr msg_sent);
        ("messageId", messageId result);
        ("emailCount", VNum count)].

(** ** Classifying a caught error *)

(** The arm of the [catch] chain that fired.  The label is bookkeeping: the
    response carries only the text and the flags the arm assigns. *)
Inductive Kind : Type :=
| Interrupted
| AuthenticationFailed
| EnvelopeRejected
| InvalidLogin
| CertificateError
| QuotaExceeded
| SuspiciousActivityBlocked
| TransportError.

Record Classified : Type := {
  kind : Kind;
  errorMessage : string;
  shouldWait : bool
}.

Definition classified (k : Kind) (msg : string) (wait : bool) : Classified :=
  {| kind := k; errorMessage := msg; shouldWait := wait |}.

(** [error.code === c] *)
Definition code_is (error : JsError) (c : string) : bool :=
  match code error with
  | Some c' => (c' =? c)%string
  | None => false
  end.

(** The four textual markers of a sending limit (lines 208-211, 318-321). *)
Definition quota_marker (m : string) : bool :=
  includes m "quota" || includes m "limit exceeded" ||
  includes m "too many" || includes m "rate limit".

(** Lines 195-221.  [None]: [error.message] is [undefined] when the chain
    reaches its first [.includes], which throws inside the [catch]. *)
Definition classify (stop : bool) (error : JsError) : option Classified :=
  if stop then Some (classified Interrupted msg_interrupted false)
  else if code_is error "EAUTH" then
    Some (classified AuthenticationFailed msg_auth false)
  else if code_is error "EENVELOPE" then
    Some (classified EnvelopeRejected msg_envelope false)
  else
    match message error with
    | None => None
    | Some m =>
        if includes m "Invalid login" then
          Some (classified InvalidLogin msg_login false)
        else if includes m "self signed certificate" then
          Some (classified CertificateError msg_certificate false)
        else if quota_marker m || code_is error "EMAXLIMIT" then
          Some (classified QuotaExceeded msg_quota true)
        else if includes m "Message rejected" || includes m "suspicious activity" then
          Some (classified SuspiciousActivityBlocked msg_blocked true)
        else
          Some (classified TransportError m false)
    end.

(** Lines 313-324, the shorter chain of /send-gmail-simple. *)
Definition classify_simple (stop : bool) (error : JsError) : option Classified :=
  if stop then Some (classified Interrupted msg_interrupted false)
  else
    match message error with
    | None => None
    | Some m =>
        if quota_marker m then Some (classified QuotaExceeded msg_quota true)
        else Some (classified TransportError m false)
    end.

(** ** The gate *)

(** The [finally] blocks (lines 230-234, 333-336). *)
Definition finally (g : Globals) : Globals :=
  set_stopRequested false (set_isSending false g).

(** Lines 117-118 and 249-250. *)
Definition acquire (g : Globals) : Globals :=
  set_stopRequested false (set_isSending true g).

(** The process-level hooks (lines 383-393) reset the same two flags. *)
Definition uncaughtException (g : Globals) : Globals :=
  set_stopRequested false (set_isSending false g).
Definition unhandledRejection (g : Globals) : Globals :=
  set_stopRequested false (set_isSending false g).

(** The cancellation checkpoints (lines 165-167, 173-175, 264-266, 292-294). *)
Definition checkpoint (g : Globals) : Completion unit :=
  if stopRequested g then Throw (Error msg_interrupted) else Normal tt.

(** The [catch] and [finally] of a send handler, given its chain.  [effects]
    is what the [try] block had already done.  When the chain itself throws,
    no response is written: [finally] still runs and the handler's promise
    rejects. *)
Definition catch_with (chain : bool -> JsError -> option Classified)
    (g : Globals) (effects : list Effect) (error : JsError) : Outcome :=
  match chain (stopRequested g) error with
  | Some c =>
      done (finally g)
           (effects ++
            [Respond 500 (failure_body (errorMessage c) (shouldWait c)
                                       (stopRequested g))])
  | None => done (finally g) (effects ++ [UnhandledRejection])
  end.

(** [!user || !password || !to || !subject || !text] *)
Definition incomplete (body : Body) : bool :=
  negb (truthy (user body)) || negb (truthy (password body)) ||
  negb (truthy (to body)) || negb (truthy (subject body)) ||
  negb (truthy (text body)).

(** ** Building the message (lines 132-160) *)

(** Reading [att.filename] and the like.  The names read here are built in
    on no primitive and on no array, so only [null] and [undefined] throw. *)
Definition get_prop (v : JsVal) (k : string) : Completion JsVal :=
  match v with
  | VUndef =>
      Throw (Error ("Cannot read properties of undefined (reading '" ++ k ++ "')"))
  | VNull =>
      Throw (Error ("Cannot read properties of null (reading '" ++ k ++ "')"))
  | VObj props =>
      Normal (match lookup k props with Some x => x | None => VUndef end)
  | VBool _ | VNum _ | VStr _ | VArr _ => Normal VUndef
  end.

(** The callback of [attachments.map] (lines 154-159). *)
Definition map_attachment (att : JsVal) : Completion JsVal :=
  filename <- get_prop att "filename" ;;
  content <- get_prop att "content" ;;
  contentType <- get_prop att "contentType" ;;
  Normal (VObj [("filename", filename);
                ("content", content);
                ("encoding", VStr "base64");
                ("contentType", contentType)]).

Fixpoint map_attachments (atts : list JsVal) : Completion (list JsVal) :=
  match atts with
  | [] => Normal []
  | att :: rest =>
      a <- map_attachment att ;;
      r <- map_attachments rest ;;
      Normal (a :: r)
  end.

(** [html || text.replace(/\n/g, '<br>')] (line 149).  Only a string has a
    [replace] method. *)
Definition html_or_default (html text : JsVal) : Completion JsVal :=
  if truthy html then Normal html
  else
    match text with
    | VStr s => Normal (VStr (replace_newlines s))
    | VUndef =>
        Throw (Error "Cannot read properties of undefined (reading 'replace')")
    | VNull =>
        Throw (Error "Cannot read properties of null (reading 'replace')")
    | VBool _ | VNum _ | VArr _ | VObj _ =>
        Throw (Error "text.replace is not a function")
    end.

(** Lines 144-160: the object handed to [sendMail]. *)
Definition build_mailOptions (body : Body) : Completion JsVal :=
  h <- html_or_default (html body) (text body) ;;
  let mailOptions :=
    [("from", js_or (from body) (user body));
     ("to", to body);
     ("subject", subject body);
     ("text", text body);
     ("html", h)] in
  match attachments body with
  | Some (att :: rest) =>
      mapped <- map_attachments (att :: rest) ;;
      Normal (VObj (mailOptions ++ [("attachments", VArr mapped)]))
  | Some [] | None => Normal (VObj mailOptions)
  end.

(** Lines 133-141. *)
Definition transport_options (body : Body) : JsVal :=
  VObj [("service", VStr "gmail");
        ("auth", VObj [("user", user body); ("pass", password body)]);
        ("debug", VBool false);
        ("logger", VBool false)].

(** Lines 269-279. *)
Definition transport_options_simple (body : Body) : JsVal :=
  VObj [("service", VStr "gmail");
        ("auth", VObj [("user", user body); ("pass", password body)]);
        ("secure", VBool false);
        ("tls", VObj [("rejectUnauthorized", VBool false)])].

(** Lines 281-287. *)
Definition mailOptions_simple (body : Body) : JsVal :=
  VObj [("from", user body);
        ("to", to body);
        ("subject", subject body);
        ("text", text body);
        ("html", js_or (html body) (text body))].

(** [await p]: a rejection is thrown at the [await]. *)
Definition await {A : Type} (r : Settled A) : Completion A :=
  match r with
  | Resolved v => Normal v
  | Rejected e => Throw e
  end.

(** ** POST /send-gmail (lines 105-235) *)

(** The [try] block up to its first [await], entered with the gate held. *)
Definition send_gmail_try (g : Globals) (body : Body) : Outcome :=
  if incomplete body then
    (* lines 124-130: isSending = false; return ...; then finally *)
    done (finally (set_isSending false g))
         [Respond 400 (plain_body false msg_incomplete)]
  else
    let transporter := CreateTransport (transport_options body) in
    match (mailOptions <- build_mailOptions body ;;
           _ <- checkpoint g ;;                      (* lines 165-167 *)
           Normal mailOptions) with
    | Throw error => catch_with classify g [transporter] error
    | Normal mailOptions =>
        suspend g [transporter; Verify] (AwaitVerify mailOptions)  (* line 170 *)
    end.

(** The turn that starts when a request arrives. *)
Definition send_gmail (g : Globals) (body : Body) : Outcome :=
  if isSending g then
    done g [Respond 429 (plain_body false msg_busy)]      (* lines 109-114 *)
  else
    send_gmail_try (acquire g) body.

(** The turn that starts when [verify()] settles (lines 170-178). *)
Definition send_gmail_verified (g : Globals) (mailOptions : JsVal)
    (r : Settled unit) : Outcome :=
  match (_ <- await r ;; checkpoint g) with
  | Throw error => catch_with classify g [] error
  | Normal _ => suspend g [SendMail mailOptions] AwaitSendMail
  end.

(** The turn that starts when [sendMail()] settles (lines 178-190). *)
Definition send_gmail_sent (g : Globals) (r : Settled Info) : Outcome :=
  match await r with
  | Throw error => catch_with classify g [] error
  | Normal result =>
      let g' := incr_emailCount g in
      done (finally g') [Respond 200 (success_body result (emailCount g'))]
  end.

(** ** POST /send-gmail-simple (lines 238-337) *)

Definition send_gmail_simple_try (g : Globals) (body : Body) : Outcome :=
  if incomplete body then
    done (finally (set_isSending false g))
         [Respond 400 (plain_body false msg_incomplete)]
  else
    match checkpoint g with                              (* lines 264-266 *)
    | Throw error => catch_with classify_simple g [] error
    | Normal _ =>
        let transporter := CreateTransport (transport_options_simple body) in
        let mailOptions := mailOptions_simple body in
        match checkpoint g with                          (* lines 292-294 *)
        | Throw error => catch_with classify_simple g [transporter] error
        | Normal _ =>
            suspend g [transporter; SendMail mailOptions] AwaitSendMailSimple
        end
    end.

Definition send_gmail_simple (g : Globals) (body : Body) : Outcome :=
  if isSending g then
    done g [Respond 429 (plain_body false msg_busy)]      (* lines 242-247 *)
  else
    send_gmail_simple_try (acquire g) body.

(** The turn that starts when [sendMail()] settles (lines 296-308). *)
Definition send_gmail_simple_sent (g : Globals) (r : Settled Info) : Outcome :=
  match await r with
  | Throw error => catch_with classify_simple g [] error
  | Normal result =>
      let g' := incr_emailCount g in
      done (finally g') [Respond 200 (success_body result (emailCount g'))]
  end.

(** ** POST /stop-sending (lines 86-100) *)

Definition stop_sending (g : Globals) : Outcome :=
  if isSending g then
    done (set_stopRequested true g) [Respond 200 (plain_body true msg_stop_requested)]
  else
    done g [Respond 200 (plain_body false msg_nothing_to_stop)].

(** ** The read-only routes *)

(** What GET /status reads from the process: [process.env.PORT || 3001],
    [process.uptime()], [serverStartTime], the rounded heap ratio and the
    current time.  They are inputs here. *)
Record Readings : Type := {
  port : JsVal;
  uptime : JsVal;
  startTime : JsVal;
  usage : JsVal;
  timestamp : JsVal
}.

(** Lines 37-62.  [None] stands for a reading that threw, which the handler
    answers from its [catch]. *)
Definition get_status (g : Globals) (readings : option Readings) : Outcome :=
  match readings with
  | Some r =>
      done g [Respond 200
                (VObj [("status", VStr "online");
                       ("port", port r);
                       ("uptime", uptime r);
                       ("startTime", startTime r);
                       ("memory", VObj [("usage", usage r)]);
                       ("emails", VObj [("today", VNum (emailCount g));
                                        ("total", VNum (emailCount g))]);
                       ("timestamp", timestamp r)])]
  | None =>
      done g [Respond 500 (VObj [("status", VStr "error");
                                 ("message", VStr msg_status_error)])]
  end.

(** Lines 65-72. *)
Definition get_health (g : Globals) (now : JsVal) : Outcome :=
  done g [Respond 200 (VObj [("status", VStr "healthy");
                             ("timestamp", now);
                             ("service", VStr "Email Server");
                             ("isSending", VBool (isSending g))])].

(** Lines 75-81. *)
Definition get_sending_status (g : Globals) : Outcome :=
  done g [Respond 200 (VObj [("isSending", VBool (isSending g));
                             ("stopRequested", VBool (stopRequested g));
                             ("emailCount", VNum (emailCount g))])].

(** ** Handler turns *)

Inductive Route : Type := SendGmail | SendGmailSimple.

(** A turn of a send handler: the arrival of a request, or the settlement of
    the promise a suspended handler awaits. *)
Inductive Turn : Type :=
| Arrive (route : Route) (body : Body)
| VerifySettled (mailOptions : JsVal) (r : Settled unit)
| SendMailSettled (route : Route) (r : Settled Info).

Definition run_turn (g : Globals) (t : Turn) : Outcome :=
  match t with
  | Arrive SendGmail body => send_gmail g body
  | Arrive SendGmailSimple body => send_gmail_simple g body
  | VerifySettled mailOptions r => send_gmail_verified g mailOptions r
  | SendMailSettled SendGmail r => send_gmail_sent g r
  | SendMailSettled SendGmailSimple r => send_gmail_simple_sent g r
  end.

(** ** The server as a transition system *)

(** The module state together with the handlers suspended at an [await]. *)
Record System : Type := {
  globals : Globals;
  inflight : list Pending
}.

Definition boot : System := {| globals := initial; inflight := [] |}.

(** What the event loop can deliver: a request, or the settlement of the
    promise awaited by the [i]-th suspended handler. *)
Inductive Event : Type :=
| PostSendGmail (body : Body)
| PostSendGmailSimple (body : Body)
| PostStopSending
| GetStatus (readings : option Readings)
| GetHealth (now : JsVal)
| GetSendingStatus
| VerifyDone (i : nat) (r : Settled unit)
| SendMailDone (i : nat) (r : Settled Info).

Definition opt_list {A : Type} (o : option A) : list A :=
  match o with
  | Some a => [a]
  | None => []
  end.

(** A request handler starts a new turn; if it suspends it joins the list. *)
Definition arrive (s : System) (o : Outcome) : System * list Effect :=
  ({| globals := out_globals o;
      inflight := inflight s ++ opt_list (out_pending o) |},
   out_effects o).

(** A suspended handler resumes in place. *)
Definition resume (s : System) (i : nat) (o : Outcome) : System * list Effect :=
  ({| globals := out_globals o;
      inflight := firstn i (inflight s) ++ opt_list (out_pending o)
                  ++ skipn (S i) (inflight s) |},
   out_effects o).

(** One event; [None] when the event cannot occur in this state (no such
    suspended handler, or it awaits something else). *)
Definition step (s : System) (e : Event) : option (System * list Effect) :=
  let g := globals s in
  match e with
  | PostSendGmail body => Some (arrive s (send_gmail g body))
  | PostSendGmailSimple body => Some (arrive s (send_gmail_simple g body))
  | PostStopSending => Some (arrive s (stop_sending g))
  | GetStatus readings => Some (arrive s (get_status g readings))
  | GetHealth now => Some (arrive s (get_health g now))
  | GetSendingStatus => Some (arrive s (get_sending_status g))
  | VerifyDone i r =>
      match nth_error (inflight s) i with
      | Some (AwaitVerify mailOptions) =>
          Some (resume s i (send_gmail_verified g mailOptions r))
      | _ => None
      end
  | SendMailDone i r =>
      match nth_error (inflight s) i with
      | Some AwaitSendMail => Some (resume s i (send_gmail_sent g r))
      | Some AwaitSendMailSimple => Some (resume s i (send_gmail_simple_sent g r))
      | _ => None
      end
  end.

(** A run: the events delivered in order, with everything they did. *)
Fixpoint run (s : System) (events : list Event) : option (System * list Effect) :=
  match events with
  | [] => Some (s, [])
  | e :: rest =>
      match step s e with
      | None => None
      | Some (s', effects) =>
          match run s' rest with
          | None => None
          | Some (s'', effects') => Some (s'', (effects ++ effects')%list)
          end
      end
  end.

(** ** Reading responses *)

(** A response that reports a completed send: [success: true] together with
    a [messageId] (which sets it apart from the [success: true] of
    /stop-sending). *)
Definition is_success_response (e : Effect) : bool :=
  match e with
  | Respond _ (VObj props) =>
      match lookup "success" props, lookup "messageId" props with
      | Some (VBool true), Some _ => true
      | _, _ => false
      end
  | _ => false
  end.

(** A response with [success: false]. *)
Definition is_failure_response (e : Effect) : bool :=
  match e with
  | Respond _ (VObj props) =>
      match lookup "success" props with
      | Some (VBool false) => true
      | _ => false
      end
  | _ => false
  end.

Definition is_response (e : Effect) : bool :=
  match e with
  | Respond _ _ => true
  | _ => false
  end.

(** The status of the response a turn wrote, if it wrote one. *)
Fixpoint response_status (effects : list Effect) : option Z :=
  match effects with
  | [] => None
  | Respond status _ :: _ => Some status
  | _ :: rest => response_status rest
  end.

(** Whether a turn reached the mail transport at all. *)
Definition touches_transport (e : Effect) : bool :=
  match e with
  | CreateTransport _ | Verify | SendMail _ => true
  | Respond _ _ | UnhandledRejection => false
  end.

(** The messages a turn submitted. *)
Fixpoint submitted (effects : list Effect) : list JsVal :=
  match effects with
  | [] => []
  | SendMail m :: rest => m :: submitted rest
  | _ :: rest => submitted rest
  end.

(** The request event of a route. *)
Definition post (route : Route) (body : Body) : Event :=
  match route with
  | SendGmail => PostSendGmail body
  | SendGmailSimple => PostSendGmailSimple body
  end.

(** ** Exit paths *)

(** The ways a turn of a send handler that started in state [g] can end.
    [g0] is the state the [try] block ran in ([g], or [g] with the gate just
    acquired) and [pre] what the block did before it ended. *)
Inductive Exit (g : Globals) : Outcome -> Prop :=
| exit_busy :
    Exit g (done g [Respond 429 (plain_body false msg_busy)])
| exit_incomplete g0 :
    emailCount g0 = emailCount g ->
    Exit g (done (finally g0) [Respond 400 (plain_body false msg_incomplete)])
| exit_caught g0 pre c :
    emailCount g0 = emailCount g ->
    Forall (fun e => is_response e = false) pre ->
    submitted pre = [] ->
    Exit g (done (finally g0)
                 (pre ++ [Respond 500 (failure_body (errorMessage c) (shouldWait c)
                                                    (stopRequested g0))]))
| exit_fault g0 pre :
    emailCount g0 = emailCount g ->
    Forall (fun e => is_response e = false) pre ->
    Exit g (done (finally g0) (pre ++ [UnhandledRejection]))
| exit_sent result :
    Exit g (done (finally (incr_emailCount g))
                 [Respond 200 (success_body result (emailCount g + 1))])
| exit_suspended g0 pre p :
    emailCount g0 = emailCount g ->
    Forall (fun e => is_response e = false) pre ->
    Exit g (suspend g0 pre p).

(** Outside a turn the flags mirror the suspended handlers: none, and both
    flags are down; or exactly one, and [isSending] is up. *)
Definition single_flight (s : System) : Prop :=
  match inflight s with
  | [] => isSending (globals s) = false /\ stopRequested (globals s) = false
  | [_] => isSending (globals s) = true
  | _ :: _ :: _ => False
  end.

(** ** Sample states and requests *)

(** The gate held by a send in flight, without and with a pending stop. *)
Definition holding : Globals :=
  {| isSending := true; stopRequested := false; emailCount := 0 |}.
Definition cancelling : Globals :=
  {| isSending := true; stopRequested := true; emailCount := 0 |}.

(** A request with every required field and a two-line text. *)
Definition two_lines : Body :=
  {| user := VStr "rodrigo@gmail.com";
     password := VStr "app-password";
     from := VUndef;
     to := VStr "cliente@example.com";
     subject := VStr "Proposta";
     text := VStr ("Bom dia," ++ LF ++ "segue a proposta.");
     html := VUndef;
     attachments := None |}.

(** The same request without its [subject]. *)
Definition no_subject : Body :=
  {| user := user two_lines;
     password := password two_lines;
     from := VUndef;
     to := to two_lines;
     subject := VUndef;
     text := text two_lines;
     html := VUndef;
     attachments := None |}.

(** The same request with [html] present but empty. *)
Definition empty_html : Body :=
  {| user := user two_lines;
     password := password two_lines;
     from := VUndef;
     to := to two_lines;
     subject := subject two_lines;
     text := text two_lines;
     html := VStr "";
     attachments := None |}.

(** The same request with an [html] part of its own. *)
Definition with_html : Body :=
  {| user := user two_lines;
     password := password two_lines;
     from := VUndef;
     to := to two_lines;
     subject := subject two_lines;
     text := text two_lines;
     html := VStr "<p>Bom dia</p>";
     attachments := None |}.

(** Gmail refusing a login for too many attempts, and a plain quota error. *)
Definition auth_quota_error : JsError :=
  {| code := Some "EAUTH";
     message := Some "Invalid login: 454 4.7.0 too many login attempts" |}.
Definition quota_error : JsError :=
  {| code := Some "EMESSAGE";
     message := Some "550 5.4.5 Daily user sending quota exceeded" |}.

(** What [two_lines] becomes on its way to [sendMail]. *)
Definition two_lines_mail : JsVal :=
  VObj [("from", VStr "rodrigo@gmail.com");
        ("to", VStr "cliente@example.com");
        ("subject", VStr "Proposta");
        ("text", VStr ("Bom dia," ++ LF ++ "segue a proposta."));
        ("html", VStr "Bom dia,<br>segue a proposta.")].

(** A send that goes through: the request, then [verify()] and [sendMail()]
    resolving, the latter with delivery id abc123. *)
Definition delivered : Info := {| messageId := VStr "abc123" |}.
Definition successful_send : list Event :=
  [PostSendGmail two_lines; VerifyDone 0 (Resolved tt); SendMailDone 0 (Resolved delivered)].

(** The server after its first delivery. *)
Definition after_first_send : System :=
  {| globals := {| isSending := false; stopRequested := false; emailCount := 1 |};
     inflight := [] |}.

(** A required field is missing from the body. *)
Definition missing_required (body : Body) : Prop :=
  user body = VUndef \/ password body = VUndef \/ to body = VUndef \/
  subject body = VUndef \/ text body = VUndef.

(** ** The default HTML part, in the words of the specification *)

(** The lines of a text: the pieces between its line feeds. *)
Fixpoint split_lines (s : string) : list string :=
  match s with
  | EmptyString => [EmptyString]
  | String c s' =>
      if (c =? ascii_of_nat 10)%char then EmptyString :: split_lines s'
      else
        match split_lines s' with
        | l :: ls => String c l :: ls
        | [] => [String c EmptyString]
        end
  end.

(** "body_text with every line break replaced by an HTML line-break marker":
    the lines of the text, joined by the marker. *)
Definition spec_default_html (body_text : string) : string :=
  String.concat "<br>" (split_lines body_text).

(** ** Further definitions *)


(** The [emailCount] values reported by the Success responses of a run, in
    the order they were written. *)
Fixpoint success_counts (effects : list Effect) : list Z :=
  match effects with
  | [] => []
  | e :: rest =>
      if is_success_response e then
        match e with
        | Respond _ body =>
            match get_path ["emailCount"] body with
            | Some (VNum n) => n :: success_counts rest
            | _ => success_counts rest
            end
        | _ => success_counts rest
        end
      else success_counts rest
  end.

(** The integers [from + 1, ..., from + n]. *)
Fixpoint count_up (from : Z) (n : nat) : list Z :=
  match n with
  | O => []
  | S n' => (from + 1) :: count_up (from + 1) n'
  end.

(** A request with one attachment that asks for another encoding, and one
    whose attachment list holds a [null]. *)
Definition with_attachment : Body :=
  {| user := user two_lines;
     password := password two_lines;
     from := VStr "Rodrigo <rodrigo@gmail.com>";
     to := to two_lines;
     subject := subject two_lines;
     text := text two_lines;
     html := VUndef;
     attachments :=
       Some [VObj [("filename", VStr "proposta.pdf");
                   ("content", VStr "JVBERi0xLjQK");
                   ("contentType", VStr "application/pdf");
                   ("encoding", VStr "7bit")]] |}.

Definition with_null_attachment : Body :=
  {| user := user two_lines;
     password := password two_lines;
     from := VUndef;
     to := to two_lines;
     subject := subject two_lines;
     text := text two_lines;
     html := VUndef;
     attachments := Some [VNull] |}.

(** * Properties *)

(** ** Substring search *)

Lemma prefix_app (n s : string) :
  prefix n s = true <-> exists b, s = n ++ b.
Proof.
  revert s. induction n as [|c n IH]; intros s.
  - split; [intros _; now exists s|]. intros _. now destruct s.
  - destruct s as [|d s]; simpl.
    + split; [discriminate|]. intros [b Hb]. discriminate.
    + destruct (ascii_dec c d) as [->|Hne].
      * rewrite IH. split; intros [b Hb]; exists b; [now rewrite Hb|].
        now injection Hb.
      * split; [discriminate|]. intros [b Hb]. injection Hb as Hcd _.
        now contradiction Hne.
Qed.

(** [includes] holds exactly when the needle occurs somewhere in the string. *)
Lemma includes_spec (s n : string) :
  includes s n = true <-> exists a b, s = a ++ n ++ b.
Proof.
  split.
  - induction s as [|c s IH]; cbn [includes]; rewrite orb_true_iff.
    + intros [H|H]; [|discriminate]. apply prefix_app in H.
      destruct H as [b Hb]. now exists "", b.
    + intros [H|H].
      * apply prefix_app in H. destruct H as [b Hb]. now exists "", b.
      * destruct (IH H) as (a & b & ->). now exists (String c a), b.
  - intros (a & b & ->). induction a as [|c a IH].
    + assert (H : prefix n (n ++ b) = true) by (apply prefix_app; now exists b).
      change ("" ++ n ++ b) with (n ++ b).
      destruct (n ++ b); cbn [includes]; rewrite H; reflexivity.
    + change (String c a ++ n ++ b) with (String c (a ++ n ++ b)).
      cbn [includes]. rewrite IH. apply orb_true_r.
Qed.

(** ** The gate primitives *)

Lemma finally_isSending (g : Globals) : isSending (finally g) = false.
Proof. reflexivity. Qed.

Lemma finally_stopRequested (g : Globals) : stopRequested (finally g) = false.
Proof. reflexivity. Qed.

Lemma finally_emailCount (g : Globals) : emailCount (finally g) = emailCount g.
Proof. reflexivity. Qed.

Lemma acquire_isSending (g : Globals) : isSending (acquire g) = true.
Proof. reflexivity. Qed.

Lemma acquire_stopRequested (g : Globals) : stopRequested (acquire g) = false.
Proof. reflexivity. Qed.

(** After [finally] the process-level hooks have nothing left to reset. *)
Lemma hooks_idle_after_finally (g : Globals) :
  unhandledRejection (finally g) = finally g /\
  uncaughtException (finally g) = finally g.
Proof. split; reflexivity. Qed.

(** A checkpoint on a raised flag throws the interruption error. *)
Lemma checkpoint_raised (g : Globals) :
  stopRequested g = true -> checkpoint g = Throw (Error msg_interrupted).
Proof. intros H. unfold checkpoint. now rewrite H. Qed.

Lemma checkpoint_clear (g : Globals) :
  stopRequested g = false -> checkpoint g = Normal tt.
Proof. intros H. unfold checkpoint. now rewrite H. Qed.

(** ** The [catch] block *)

(** Whatever was caught, the handler ends there, with the gate released and
    the counter untouched. *)
Lemma catch_with_globals chain g effects error :
  out_globals (catch_with chain g effects error) = finally g.
Proof. unfold catch_with. now destruct (chain _ _). Qed.

Lemma catch_with_pending chain g effects error :
  out_pending (catch_with chain g effects error) = None.
Proof. unfold catch_with. now destruct (chain _ _). Qed.

(** It adds one effect to those of the [try] block: the 500 response, or the
    rejection when the chain threw. *)
Lemma catch_with_effects chain g effects error :
  out_effects (catch_with chain g effects error) =
  (effects ++
   [match chain (stopRequested g) error with
    | Some c => Respond 500 (failure_body (errorMessage c) (shouldWait c)
                                          (stopRequested g))
    | None => UnhandledRejection
    end])%list.
Proof. unfold catch_with. now destruct (chain _ _). Qed.

(** With the flag raised both chains stop at their first arm. *)
Lemma classify_interrupted error :
  classify true error = Some (classified Interrupted msg_interrupted false).
Proof. reflexivity. Qed.

Lemma classify_simple_interrupted error :
  classify_simple true error = Some (classified Interrupted msg_interrupted false).
Proof. reflexivity. Qed.

(** ** Shape of a handler turn *)

(** Every finished turn other than the 429 rejection went through [finally]
    or through the early exit that precedes it. *)
Lemma try_finished g body :
  out_pending (send_gmail_try g body) = None ->
  out_globals (send_gmail_try g body) = finally g.
Proof.
  unfold send_gmail_try, bind.
  destruct (incomplete body); [reflexivity|].
  destruct (build_mailOptions body) as [mo|e].
  - destruct (checkpoint g) as [[]|e]; [discriminate|].
    intros _. apply catch_with_globals.
  - intros _. apply catch_with_globals.
Qed.

Lemma simple_try_finished g body :
  out_pending (send_gmail_simple_try g body) = None ->
  out_globals (send_gmail_simple_try g body) = finally g.
Proof.
  unfold send_gmail_simple_try.
  destruct (incomplete body); [reflexivity|].
  destruct (checkpoint g) as [[]|e]; [discriminate|].
  intros _. apply catch_with_globals.
Qed.

Lemma verified_finished g mo r :
  out_pending (send_gmail_verified g mo r) = None ->
  out_globals (send_gmail_verified g mo r) = finally g.
Proof.
  unfold send_gmail_verified, await, bind.
  destruct r as [[]|e].
  - destruct (checkpoint g) as [[]|e]; [discriminate|].
    intros _. apply catch_with_globals.
  - intros _. apply catch_with_globals.
Qed.

Lemma sent_globals g r :
  out_globals (send_gmail_sent g r) =
  match r with
  | Resolved _ => finally (incr_emailCount g)
  | Rejected _ => finally g
  end.
Proof.
  unfold send_gmail_sent, await. destruct r; [reflexivity|].
  apply catch_with_globals.
Qed.

Lemma simple_sent_globals g r :
  out_globals (send_gmail_simple_sent g r) =
  match r with
  | Resolved _ => finally (incr_emailCount g)
  | Rejected _ => finally g
  end.
Proof.
  unfold send_gmail_simple_sent, await. destruct r; [reflexivity|].
  apply catch_with_globals.
Qed.

Lemma sent_pending g r : out_pending (send_gmail_sent g r) = None.
Proof.
  unfold send_gmail_sent, await. destruct r; [reflexivity|].
  apply catch_with_pending.
Qed.

Lemma simple_sent_pending g r : out_pending (send_gmail_simple_sent g r) = None.
Proof.
  unfold send_gmail_simple_sent, await. destruct r; [reflexivity|].
  apply catch_with_pending.
Qed.

(** ** Release on every exit path *)

(** A request rejected with 429 is a completed invocation too, and it
    returns before the [try]: the flags stay as the send in flight has
    them, here both raised. *)
Lemma rejected_request_leaves_gate_held :
  run_turn cancelling (Arrive SendGmail two_lines) =
    done cancelling [Respond 429 (plain_body false msg_busy)] /\
  out_pending (run_turn cancelling (Arrive SendGmail two_lines)) = None /\
  isSending (out_globals (run_turn cancelling (Arrive SendGmail two_lines))) = true /\
  stopRequested (out_globals (run_turn cancelling (Arrive SendGmail two_lines))) = true.
Proof. repeat split; reflexivity. Qed.

(** C1 (amended). Every finished turn of a send handler that was not
    rejected with 429, whatever its outcome (success, validation failure,
    cancellation, a transport failure, or a fault inside the [catch]),
    leaves [isSending = false] and [stopRequested = false].  The 429
    rejection never took the gate and leaves it to its holder. *)
Theorem gate_released_on_every_exit (g : Globals) (t : Turn) :
  out_pending (run_turn g t) = None ->
  response_status (out_effects (run_turn g t)) <> Some 429 ->
  isSending (out_globals (run_turn g t)) = false /\
  stopRequested (out_globals (run_turn g t)) = false.
Proof.
  destruct t as [[|] body | mo r | [|] r]; simpl; intros Hdone Hstatus.
  - unfold send_gmail in *. destruct (isSending g).
    + now contradiction Hstatus.
    + rewrite try_finished by assumption. split; reflexivity.
  - unfold send_gmail_simple in *. destruct (isSending g).
    + now contradiction Hstatus.
    + rewrite simple_try_finished by assumption. split; reflexivity.
  - rewrite verified_finished by assumption. split; reflexivity.
  - rewrite sent_globals. destruct r; split; reflexivity.
  - rewrite simple_sent_globals. destruct r; split; reflexivity.
Qed.

Lemma gate_released_on_every_exit_witness :
  isSending (out_globals (run_turn cancelling
               (SendMailSettled SendGmail (Rejected quota_error)))) = false /\
  stopRequested (out_globals (run_turn cancelling
               (SendMailSettled SendGmail (Rejected quota_error)))) = false.
Proof.
  apply (gate_released_on_every_exit cancelling
           (SendMailSettled SendGmail (Rejected quota_error))).
  - reflexivity.
  - vm_compute. discriminate.
Defined.

(** ** Single flight *)

Lemma boot_single_flight : single_flight boot.
Proof. split; reflexivity. Qed.

(** A turn that suspends keeps the gate it holds. *)
Lemma try_suspended g body p :
  out_pending (send_gmail_try g body) = Some p ->
  out_globals (send_gmail_try g body) = g.
Proof.
  unfold send_gmail_try, bind.
  destruct (incomplete body); [discriminate|].
  destruct (build_mailOptions body) as [mo|e].
  - destruct (checkpoint g) as [[]|e]; [reflexivity|].
    now rewrite catch_with_pending.
  - now rewrite catch_with_pending.
Qed.

Lemma simple_try_suspended g body p :
  out_pending (send_gmail_simple_try g body) = Some p ->
  out_globals (send_gmail_simple_try g body) = g.
Proof.
  unfold send_gmail_simple_try.
  destruct (incomplete body); [discriminate|].
  destruct (checkpoint g) as [[]|e]; [reflexivity|].
  now rewrite catch_with_pending.
Qed.

Lemma verified_suspended g mo r p :
  out_pending (send_gmail_verified g mo r) = Some p ->
  out_globals (send_gmail_verified g mo r) = g.
Proof.
  unfold send_gmail_verified, await, bind.
  destruct r as [[]|e].
  - destruct (checkpoint g) as [[]|e]; [reflexivity|].
    now rewrite catch_with_pending.
  - now rewrite catch_with_pending.
Qed.

(** A request that finds the gate free either finishes with the gate
    released or suspends holding it. *)
Lemma arrival_on_free_gate g route body :
  isSending g = false ->
  let o := run_turn g (Arrive route body) in
  match out_pending o with
  | None => out_globals o = finally g
  | Some _ => isSending (out_globals o) = true
  end.
Proof.
  intros Hfree. destruct route; simpl.
  - unfold send_gmail. rewrite Hfree.
    destruct (out_pending (send_gmail_try (acquire g) body)) eqn:Hp.
    + now rewrite (try_suspended _ _ _ Hp).
    + now rewrite try_finished.
  - unfold send_gmail_simple. rewrite Hfree.
    destruct (out_pending (send_gmail_simple_try (acquire g) body)) eqn:Hp.
    + now rewrite (simple_try_suspended _ _ _ Hp).
    + now rewrite simple_try_finished.
Qed.

(** The routes that only read, and /stop-sending, never touch [isSending]
    and never suspend. *)
Lemma stop_sending_shape g :
  out_pending (stop_sending g) = None /\
  isSending (out_globals (stop_sending g)) = isSending g /\
  emailCount (out_globals (stop_sending g)) = emailCount g /\
  (isSending g = false -> out_globals (stop_sending g) = g).
Proof.
  unfold stop_sending. destruct (isSending g) eqn:E; simpl; rewrite ?E; auto.
  repeat split; auto. discriminate.
Qed.

Theorem step_single_flight (s s' : System) (e : Event) (effects : list Effect) :
  single_flight s -> step s e = Some (s', effects) -> single_flight s'.
Proof.
  unfold single_flight. destruct s as [g fl]; simpl.
  destruct e as [body|body| |rd|now| |i r|i r]; simpl; intros Inv Hstep.
  - (* POST /send-gmail *)
    injection Hstep as <- _. simpl.
    destruct fl as [|p [|q fl]]; try contradiction.
    + destruct Inv as [Hfree _].
      pose proof (arrival_on_free_gate g SendGmail body Hfree) as H.
      simpl in H. destruct (out_pending (send_gmail g body)); simpl; [exact H|].
      now rewrite H.
    + unfold send_gmail. now rewrite Inv.
  - (* POST /send-gmail-simple *)
    injection Hstep as <- _. simpl.
    destruct fl as [|p [|q fl]]; try contradiction.
    + destruct Inv as [Hfree _].
      pose proof (arrival_on_free_gate g SendGmailSimple body Hfree) as H.
      simpl in H. destruct (out_pending (send_gmail_simple g body)); simpl; [exact H|].
      now rewrite H.
    + unfold send_gmail_simple. now rewrite Inv.
  - (* POST /stop-sending *)
    injection Hstep as <- _. simpl.
    destruct (stop_sending_shape g) as (Hp & Hs & _ & Hid).
    rewrite Hp. simpl. rewrite app_nil_r.
    destruct fl as [|p [|q fl]]; try contradiction.
    + destruct Inv as [Hfree Hstop]. now rewrite (Hid Hfree).
    + now rewrite Hs.
  - injection Hstep as <- _. destruct rd; simpl; now rewrite app_nil_r.
  - injection Hstep as <- _. simpl. now rewrite app_nil_r.
  - injection Hstep as <- _. simpl. now rewrite app_nil_r.
  - (* verify() settled *)
    destruct fl as [|p [|q fl]]; try contradiction.
    + now destruct i.
    + destruct i as [|i]; simpl in Hstep; [|now destruct i].
      destruct p as [mo| |]; try discriminate.
      injection Hstep as <- _. simpl.
      destruct (out_pending (send_gmail_verified g mo r)) eqn:Hp; simpl.
      * now rewrite (verified_suspended _ _ _ _ Hp).
      * now rewrite verified_finished.
  - (* sendMail() settled *)
    destruct fl as [|p [|q fl]]; try contradiction.
    + now destruct i.
    + destruct i as [|i]; simpl in Hstep; [|now destruct i].
      destruct p as [mo| |]; try discriminate; injection Hstep as <- _; simpl.
      * rewrite sent_pending, sent_globals. now destruct r.
      * rewrite simple_sent_pending, simple_sent_globals. now destruct r.
Qed.

(** Hence at most one send is ever in flight, from boot onwards. *)
Theorem run_single_flight (events : list Event) :
  forall s s' effects,
    single_flight s -> run s events = Some (s', effects) -> single_flight s'.
Proof.
  induction events as [|e rest IH]; simpl; intros s s' effects Inv Hrun.
  - now injection Hrun as <- _.
  - destruct (step s e) as [[s1 eff1]|] eqn:Hstep; [|discriminate].
    destruct (run s1 rest) as [[s2 eff2]|] eqn:Hrest; [|discriminate].
    injection Hrun as <- _.
    eapply IH; [|exact Hrest]. eapply step_single_flight; eauto.
Qed.

(** ** Every turn ends on one of the exit paths *)

Lemma catch_with_exit chain g g0 pre error :
  emailCount g0 = emailCount g ->
  Forall (fun e => is_response e = false) pre ->
  submitted pre = [] ->
  Exit g (catch_with chain g0 pre error).
Proof.
  intros Hc Hpre Hsub. unfold catch_with.
  destruct (chain (stopRequested g0) error) as [c|].
  - now apply exit_caught.
  - now apply exit_fault.
Qed.

Lemma send_gmail_try_exit g g0 body :
  emailCount g0 = emailCount g -> Exit g (send_gmail_try g0 body).
Proof.
  intros Hc. unfold send_gmail_try, bind.
  destruct (incomplete body); [now apply exit_incomplete|].
  destruct (build_mailOptions body) as [mo|e].
  - destruct (checkpoint g0) as [[]|e].
    + apply exit_suspended; [assumption|]. repeat constructor.
    + apply catch_with_exit; [assumption| |reflexivity]. repeat constructor.
  - apply catch_with_exit; [assumption| |reflexivity]. repeat constructor.
Qed.

Lemma send_gmail_simple_try_exit g g0 body :
  emailCount g0 = emailCount g -> Exit g (send_gmail_simple_try g0 body).
Proof.
  intros Hc. unfold send_gmail_simple_try.
  destruct (incomplete body); [now apply exit_incomplete|].
  destruct (checkpoint g0) as [[]|e].
  - apply exit_suspended; [assumption|]. repeat constructor.
  - apply catch_with_exit; [assumption|constructor|reflexivity].
Qed.

Theorem run_turn_exit (g : Globals) (t : Turn) : Exit g (run_turn g t).
Proof.
  destruct t as [[|] body | mo r | [|] r]; simpl.
  - unfold send_gmail. destruct (isSending g); [apply exit_busy|].
    now apply send_gmail_try_exit.
  - unfold send_gmail_simple. destruct (isSending g); [apply exit_busy|].
    now apply send_gmail_simple_try_exit.
  - unfold send_gmail_verified, await, bind. destruct r as [[]|e].
    + destruct (checkpoint g) as [[]|e].
      * apply exit_suspended; [reflexivity|]. repeat constructor.
      * apply catch_with_exit; [reflexivity|constructor|reflexivity].
    + apply catch_with_exit; [reflexivity|constructor|reflexivity].
  - unfold send_gmail_sent, await. destruct r as [result|e].
    + apply exit_sent.
    + apply catch_with_exit; [reflexivity|constructor|reflexivity].
  - unfold send_gmail_simple_sent, await. destruct r as [result|e].
    + apply exit_sent.
    + apply catch_with_exit; [reflexivity|constructor|reflexivity].
Qed.

(** ** Rejection while the gate is held *)

(** C2. A send request that arrives while [isSending] is true is answered in
    the same turn with HTTP 429 and the "already in progress" failure; the
    turn changes neither flag nor the counter, touches no transport and
    leaves the set of suspended handlers as it was. *)
Theorem busy_request_rejected (s : System) (route : Route) (body : Body) :
  isSending (globals s) = true ->
  run_turn (globals s) (Arrive route body) =
    done (globals s) [Respond 429 (plain_body false msg_busy)] /\
  step s (post route body) =
    Some (s, [Respond 429 (plain_body false msg_busy)]).
Proof.
  intros Hbusy.
  assert (Hturn : run_turn (globals s) (Arrive route body) =
                  done (globals s) [Respond 429 (plain_body false msg_busy)]).
  { destruct route; simpl; unfold send_gmail, send_gmail_simple;
      now rewrite Hbusy. }
  split; [exact Hturn|].
  destruct s as [g fl]. destruct route; simpl in *; rewrite Hturn;
    unfold arrive; simpl; now rewrite app_nil_r.
Qed.

Lemma busy_request_rejected_witness :
  isSending (globals {| globals := cancelling; inflight := [AwaitSendMail] |}) = true /\
  step {| globals := cancelling; inflight := [AwaitSendMail] |}
       (post SendGmail two_lines) =
    Some ({| globals := cancelling; inflight := [AwaitSendMail] |},
          [Respond 429 (plain_body false msg_busy)]).
Proof.
  split; [reflexivity|].
  apply (busy_request_rejected
           {| globals := cancelling; inflight := [AwaitSendMail] |}
           SendGmail two_lines).
  reflexivity.
Defined.

(** ** The counter *)

Lemma quiet_no_success pre :
  Forall (fun e => is_response e = false) pre ->
  filter is_success_response pre = [].
Proof.
  induction 1 as [|e pre He _ IH]; [reflexivity|].
  simpl. rewrite IH. destruct e; try reflexivity. discriminate.
Qed.



(** A turn moves the counter by the number of successes it reports, which
    is one on the success path and zero on every other. *)
Lemma turn_counter g o :
  Exit g o ->
  emailCount (out_globals o) =
  emailCount g + Z.of_nat (List.length (filter is_success_response (out_effects o))).
Proof.
  intros [ | g0 Hc | g0 pre c Hc Hpre _ | g0 pre Hc Hpre | result | g0 pre p Hc Hpre];
    simpl out_globals; simpl out_effects; rewrite ?finally_emailCount;
    rewrite ?filter_app, ?(quiet_no_success _ Hpre); simpl; lia.
Qed.


Lemma step_counter s e s' effects :
  step s e = Some (s', effects) ->
  emailCount (globals s') =
  emailCount (globals s) + Z.of_nat (List.length (filter is_success_response effects)).
Proof.
  destruct s as [g fl].
  destruct e as [body|body| |rd|now| |i r|i r]; simpl; intros Hstep.
  - injection Hstep as <- <-. simpl.
    apply (turn_counter g _ (run_turn_exit g (Arrive SendGmail body))).
  - injection Hstep as <- <-. simpl.
    apply (turn_counter g _ (run_turn_exit g (Arrive SendGmailSimple body))).
  - injection Hstep as <- <-. simpl. unfold stop_sending.
    destruct (isSending g); simpl; lia.
  - injection Hstep as <- <-. destruct rd; simpl; lia.
  - injection Hstep as <- <-. simpl; lia.
  - injection Hstep as <- <-. simpl; lia.
  - destruct (nth_error fl i) as [[mo| |]|]; try discriminate.
    injection Hstep as <- <-. simpl.
    apply (turn_counter g _ (run_turn_exit g (VerifySettled mo r))).
  - destruct (nth_error fl i) as [[mo| |]|]; try discriminate;
      injection Hstep as <- <-; simpl.
    + apply (turn_counter g _ (run_turn_exit g (SendMailSettled SendGmail r))).
    + apply (turn_counter g _ (run_turn_exit g (SendMailSettled SendGmailSimple r))).
Qed.

Lemma run_counter events :
  forall s s' effects,
    run s events = Some (s', effects) ->
    emailCount (globals s') =
    emailCount (globals s) + Z.of_nat (List.length (filter is_success_response effects)).
Proof.
  induction events as [|e rest IH]; simpl; intros s s' effects Hrun.
  - injection Hrun as <- <-. simpl. lia.
  - destruct (step s e) as [[s1 eff1]|] eqn:Hstep; [|discriminate].
    destruct (run s1 rest) as [[s2 eff2]|] eqn:Hrest; [|discriminate].
    injection Hrun as <- <-.
    rewrite (IH _ _ _ Hrest), (step_counter _ _ _ _ Hstep).
    rewrite filter_app, length_app. lia.
Qed.



(** ** Requesting a stop *)

Lemma stop_while_sending s :
  isSending (globals s) = true ->
  step s PostStopSending =
    Some ({| globals := set_stopRequested true (globals s);
             inflight := inflight s |},
          [Respond 200 (plain_body true msg_stop_requested)]).
Proof.
  intros Hbusy. destruct s as [g fl]. simpl in *.
  unfold stop_sending, arrive. rewrite Hbusy. simpl. now rewrite app_nil_r.
Qed.

Lemma stop_while_idle s :
  isSending (globals s) = false ->
  step s PostStopSending =
    Some (s, [Respond 200 (plain_body false msg_nothing_to_stop)]).
Proof.
  intros Hidle. destruct s as [g fl]. simpl in *.
  unfold stop_sending, arrive. rewrite Hidle. simpl. now rewrite app_nil_r.
Qed.

(** C4. While a send is in flight, any number of POST /stop-sending calls
    (at least one) leave the server exactly where a single call leaves it,
    with [stopRequested] raised, and each call is answered with
    [success: true]; with no send in flight each call is answered with
    [success: false] and changes nothing. *)
Theorem stop_sending_idempotent (s : System) :
  (isSending (globals s) = true ->
   forall n,
     run s (repeat PostStopSending (S n)) =
       Some ({| globals := set_stopRequested true (globals s);
                inflight := inflight s |},
             repeat (Respond 200 (plain_body true msg_stop_requested)) (S n)) /\
     stopRequested (set_stopRequested true (globals s)) = true /\
     isSending (set_stopRequested true (globals s)) = true /\
     emailCount (set_stopRequested true (globals s)) = emailCount (globals s)) /\
  (isSending (globals s) = false ->
   forall n,
     run s (repeat PostStopSending n) =
       Some (s, repeat (Respond 200 (plain_body false msg_nothing_to_stop)) n)).
Proof.
  split.
  - intros Hbusy n. split; [|now repeat split].
    revert s Hbusy. induction n as [|n IH]; intros s Hbusy.
    + simpl repeat. unfold run. now rewrite (stop_while_sending s Hbusy).
    + change (repeat PostStopSending (S (S n)))
        with (PostStopSending :: repeat PostStopSending (S n)).
      cbn [run]. rewrite (stop_while_sending s Hbusy).
      rewrite IH by exact Hbusy. reflexivity.
  - intros Hidle n. induction n as [|n IH]; [reflexivity|].
    cbn [repeat run]. rewrite (stop_while_idle s Hidle), IH. reflexivity.
Qed.

Lemma stop_sending_idempotent_witness :
  run {| globals := holding; inflight := [AwaitSendMail] |}
      (repeat PostStopSending 3) =
    Some ({| globals := cancelling; inflight := [AwaitSendMail] |},
          repeat (Respond 200 (plain_body true msg_stop_requested)) 3) /\
  run boot (repeat PostStopSending 2) =
    Some (boot, repeat (Respond 200 (plain_body false msg_nothing_to_stop)) 2).
Proof.
  split.
  - apply (proj1 (stop_sending_idempotent
                    {| globals := holding; inflight := [AwaitSendMail] |})
                 eq_refl 2%nat).
  - apply (proj2 (stop_sending_idempotent boot) eq_refl 2%nat).
Defined.

(** ** What a failure response carries *)

(** The validation failure of /send-gmail carries neither a [shouldWait]
    nor an [interrupted] key, and neither does the 429 rejection. *)
Lemma early_failures_lack_flags :
  out_effects (send_gmail initial no_subject) =
    [Respond 400 (plain_body false msg_incomplete)] /\
  get_path ["shouldWait"] (plain_body false msg_incomplete) = None /\
  get_path ["interrupted"] (plain_body false msg_incomplete) = None /\
  out_effects (send_gmail holding two_lines) =
    [Respond 429 (plain_body false msg_busy)] /\
  get_path ["shouldWait"] (plain_body false msg_busy) = None /\
  get_path ["interrupted"] (plain_body false msg_busy) = None.
Proof. repeat split; reflexivity. Qed.

Lemma quiet_not_in pre status body :
  Forall (fun e => is_response e = false) pre ->
  ~ In (Respond status body) pre.
Proof.
  intros Hpre Hin. rewrite Forall_forall in Hpre.
  specialize (Hpre _ Hin). discriminate.
Qed.

(** The responses a turn can contain, by exit path. *)
Lemma exit_responses g o status body :
  Exit g o ->
  In (Respond status body) (out_effects o) ->
  (status = 429 /\ body = plain_body false msg_busy) \/
  (status = 400 /\ body = plain_body false msg_incomplete) \/
  (status = 500 /\
   exists g0 c, emailCount g0 = emailCount g /\ out_globals o = finally g0 /\
     body = failure_body (errorMessage c) (shouldWait c) (stopRequested g0)) \/
  (status = 200 /\ exists result, body = success_body result (emailCount g + 1)).
Proof.
  intros [ | g0 Hc | g0 pre c Hc Hpre _ | g0 pre Hc Hpre | result | g0 pre p Hc Hpre];
    simpl out_effects; intros Hin.
  - destruct Hin as [Heq|[]]. injection Heq as <- <-. now left.
  - destruct Hin as [Heq|[]]. injection Heq as <- <-. right. now left.
  - apply in_app_or in Hin. destruct Hin as [Hin|[Heq|[]]].
    + now apply quiet_not_in in Hin.
    + injection Heq as <- <-. right. right. left. split; [reflexivity|].
      now exists g0, c.
  - apply in_app_or in Hin. destruct Hin as [Hin|[Heq|[]]].
    + now apply quiet_not_in in Hin.
    + discriminate.
  - destruct Hin as [Heq|[]]. injection Heq as <- <-. right. right. right.
    split; [reflexivity|]. now exists result.
  - now apply quiet_not_in in Hin.
Qed.

(** C5 (amended). Every failure response of the send operations carries a
    [message]; those sent with HTTP 500 from the [catch] block also carry
    [shouldWait] and [interrupted], while the 400 and 429 responses are
    exactly [{success: false, message}]. *)
Theorem failure_response_fields (g : Globals) (t : Turn) (status : Z) (body : JsVal) :
  In (Respond status body) (out_effects (run_turn g t)) ->
  is_failure_response (Respond status body) = true ->
  (exists m, get_path ["message"] body = Some (VStr m)) /\
  ((status = 500 /\
    exists w i, get_path ["shouldWait"] body = Some (VBool w) /\
                get_path ["interrupted"] body = Some (VBool i)) \/
   ((status = 400 \/ status = 429) /\
    exists m, body = plain_body false m)).
Proof.
  intros Hin Hfail.
  destruct (exit_responses g _ status body (run_turn_exit g t) Hin)
    as [[-> ->]|[[-> ->]|[[-> (g0 & c & _ & _ & ->)]|[-> (result & ->)]]]].
  - split; [now exists msg_busy|]. right. split; [now right|]. now exists msg_busy.
  - split; [now exists msg_incomplete|]. right. split; [now left|].
    now exists msg_incomplete.
  - split; [now exists (errorMessage c)|]. left. split; [reflexivity|].
    now exists (shouldWait c), (stopRequested g0).
  - discriminate.
Qed.

Lemma failure_response_fields_witness :
  (exists m, get_path ["message"] (failure_body msg_quota true false) = Some (VStr m)) /\
  ((500 = 500 /\
    exists w i,
      get_path ["shouldWait"] (failure_body msg_quota true false) = Some (VBool w) /\
      get_path ["interrupted"] (failure_body msg_quota true false) = Some (VBool i)) \/
   ((500 = 400 \/ 500 = 429) /\
    exists m, failure_body msg_quota true false = plain_body false m)).
Proof.
  apply (failure_response_fields holding
           (SendMailSettled SendGmail (Rejected quota_error))).
  - vm_compute. left. reflexivity.
  - reflexivity.
Defined.

(** ** Incomplete requests *)

Lemma missing_required_incomplete body :
  missing_required body -> incomplete body = true.
Proof.
  unfold missing_required, incomplete.
  intros [H|[H|[H|[H|H]]]]; rewrite H; simpl;
    rewrite ?orb_true_r; reflexivity.
Qed.

(** A request without its subject that arrives while another send holds the
    gate is answered 429, not 400, and the gate is still held afterwards. *)
Lemma incomplete_request_while_busy :
  missing_required no_subject /\
  run_turn holding (Arrive SendGmail no_subject) =
    done holding [Respond 429 (plain_body false msg_busy)] /\
  isSending (out_globals (run_turn holding (Arrive SendGmail no_subject))) = true.
Proof.
  split; [|split; reflexivity].
  right. right. right. left. reflexivity.
Qed.

(** C6 (amended). A send request that lacks a required field and arrives
    while the gate is free is answered with HTTP 400 and a message that
    contains "Dados incompletos"; the turn creates no transport, verifies
    nothing and submits nothing, and it ends with the gate free. *)
Theorem incomplete_request_rejected (g : Globals) (route : Route) (body : Body) :
  isSending g = false ->
  missing_required body ->
  run_turn g (Arrive route body) =
    done (finally g) [Respond 400 (plain_body false msg_incomplete)] /\
  includes msg_incomplete "Dados incompletos" = true /\
  existsb touches_transport (out_effects (run_turn g (Arrive route body))) = false /\
  isSending (out_globals (run_turn g (Arrive route body))) = false.
Proof.
  intros Hfree Hmiss. apply missing_required_incomplete in Hmiss.
  assert (Hturn : run_turn g (Arrive route body) =
                  done (finally g) [Respond 400 (plain_body false msg_incomplete)]).
  { destruct route; simpl;
      unfold send_gmail, send_gmail_simple, send_gmail_try, send_gmail_simple_try;
      now rewrite Hfree, Hmiss. }
  rewrite Hturn. repeat split; reflexivity.
Qed.

Lemma incomplete_request_rejected_witness :
  run_turn initial (Arrive SendGmail no_subject) =
    done (finally initial) [Respond 400 (plain_body false msg_incomplete)] /\
  includes msg_incomplete "Dados incompletos" = true /\
  existsb touches_transport
    (out_effects (run_turn initial (Arrive SendGmail no_subject))) = false /\
  isSending (out_globals (run_turn initial (Arrive SendGmail no_subject))) = false.
Proof.
  apply (incomplete_request_rejected initial SendGmail no_subject).
  - reflexivity.
  - right. right. right. left. reflexivity.
Defined.

(** ** The HTML part of the message *)

Lemma split_lines_nonempty s : split_lines s <> [].
Proof.
  destruct s as [|c s]; simpl; [discriminate|].
  destruct (c =? ascii_of_nat 10)%char; [discriminate|].
  destruct (split_lines s); discriminate.
Qed.

(** The regular-expression replacement computes what the specification
    describes. *)
Lemma replace_newlines_spec (s : string) :
  replace_newlines s = spec_default_html s.
Proof.
  unfold spec_default_html. induction s as [|c s IH]; [reflexivity|].
  simpl. destruct (c =? ascii_of_nat 10)%char.
  - rewrite IH. pose proof (split_lines_nonempty s) as Hne.
    destruct (split_lines s) as [|l ls]; [contradiction|]. reflexivity.
  - rewrite IH. pose proof (split_lines_nonempty s) as Hne.
    destruct (split_lines s) as [|l ls]; [contradiction|].
    destruct ls; reflexivity.
Qed.

(** No line feed survives the replacement. *)
Lemma replace_newlines_no_LF (s : string) :
  includes (replace_newlines s) LF = false.
Proof.
  induction s as [|c s IH]; [reflexivity|].
  cbn [replace_newlines].
  destruct (c =? ascii_of_nat 10)%char eqn:E.
  - exact IH.
  - cbn [includes prefix LF]. rewrite IH, orb_false_r.
    destruct (ascii_dec (ascii_of_nat 10) c) as [Heq|Hne]; [|reflexivity].
    rewrite <- Heq in E. now rewrite Ascii.eqb_refl in E.
Qed.

Lemma build_mailOptions_html body mo :
  build_mailOptions body = Normal mo ->
  exists h, html_or_default (html body) (text body) = Normal h /\
            get_path ["html"] mo = Some h.
Proof.
  unfold build_mailOptions, bind.
  destruct (html_or_default (html body) (text body)) as [h|e]; [|discriminate].
  intros H. exists h. split; [reflexivity|].
  destruct (attachments body) as [[|att rest]|].
  - now injection H as <-.
  - destruct (map_attachments (att :: rest)); [|discriminate].
    now injection H as <-.
  - now injection H as <-.
Qed.

Lemma send_gmail_await_verify g body mo :
  out_pending (send_gmail g body) = Some (AwaitVerify mo) ->
  build_mailOptions body = Normal mo.
Proof.
  unfold send_gmail. destruct (isSending g); [discriminate|].
  unfold send_gmail_try, bind. destruct (incomplete body); [discriminate|].
  destruct (build_mailOptions body) as [mo'|e].
  - destruct (checkpoint (acquire g)) as [[]|e].
    + simpl. now intros [= ->].
    + now rewrite catch_with_pending.
  - now rewrite catch_with_pending.
Qed.

Lemma catch_with_submits_nothing chain g error :
  submitted (out_effects (catch_with chain g [] error)) = [].
Proof. unfold catch_with. now destruct (chain _ _). Qed.

(** What the turn after [verify()] submits: the message prepared on arrival,
    or nothing. *)
Lemma verified_submits g mo r :
  submitted (out_effects (send_gmail_verified g mo r)) =
  match r with
  | Resolved _ => if stopRequested g then [] else [mo]
  | Rejected _ => []
  end.
Proof.
  unfold send_gmail_verified, await, bind, checkpoint.
  destruct r as [[]|e].
  - destruct (stopRequested g); [apply catch_with_submits_nothing|reflexivity].
  - apply catch_with_submits_nothing.
Qed.

(** An [html] that is present but empty is not used: the message submitted
    for [empty_html] carries the HTML derived from its text. *)
Lemma empty_html_is_replaced :
  html empty_html = VStr "" /\
  out_pending (send_gmail initial empty_html) = Some (AwaitVerify two_lines_mail) /\
  out_effects (send_gmail_verified holding two_lines_mail (Resolved tt)) =
    [SendMail two_lines_mail] /\
  get_path ["html"] two_lines_mail = Some (VStr "Bom dia,<br>segue a proposta.") /\
  get_path ["html"] two_lines_mail <> Some (html empty_html).
Proof. repeat split; try reflexivity. discriminate. Qed.

(** C7 (amended). For a complete /send-gmail request, the HTML part of the
    message prepared for submission is the request's [html] unchanged when
    that value is truthy (a non-empty string, say); when [html] is absent or
    otherwise falsy (the empty string, [null]), the text is a string and the
    HTML part is that text with every line feed replaced by the marker
    "<br>".  The message later submitted is the one prepared. *)
Theorem html_part_of_message (g : Globals) (body : Body) (mo : JsVal) :
  out_pending (send_gmail g body) = Some (AwaitVerify mo) ->
  (truthy (html body) = true -> get_path ["html"] mo = Some (html body)) /\
  (truthy (html body) = false ->
   exists t, text body = VStr t /\
             get_path ["html"] mo = Some (VStr (replace_newlines t)) /\
             replace_newlines t = spec_default_html t) /\
  (forall g' r, submitted (out_effects (send_gmail_verified g' mo r)) = [mo] \/
                submitted (out_effects (send_gmail_verified g' mo r)) = []).
Proof.
  intros Hpending. apply send_gmail_await_verify in Hpending.
  destruct (build_mailOptions_html _ _ Hpending) as (h & Hh & Hget).
  unfold html_or_default in Hh. repeat split.
  - intros Ht. rewrite Ht in Hh. injection Hh as <-. exact Hget.
  - intros Hf. rewrite Hf in Hh.
    destruct (text body) as [| |b|n|t|items|props]; try discriminate.
    injection Hh as <-. exists t. repeat split; [exact Hget|].
    apply replace_newlines_spec.
  - intros g' r. rewrite verified_submits.
    destruct r; [destruct (stopRequested g')|]; auto.
Qed.

Lemma html_part_of_message_witness :
  out_pending (send_gmail initial two_lines) = Some (AwaitVerify two_lines_mail) /\
  truthy (html two_lines) = false /\
  exists t, text two_lines = VStr t /\
            get_path ["html"] two_lines_mail = Some (VStr (replace_newlines t)) /\
            replace_newlines t = spec_default_html t.
Proof.
  split; [reflexivity|]. split; [reflexivity|].
  apply (proj1 (proj2 (html_part_of_message initial two_lines two_lines_mail
                         eq_refl))).
  reflexivity.
Defined.

(** ** Sending limits *)

(** An error that names a sending limit but carries the code EAUTH is
    answered by the authentication arm, with [shouldWait: false]. *)
Lemma auth_error_with_limit_marker :
  message auth_quota_error =
    Some "Invalid login: 454 4.7.0 too many login attempts" /\
  quota_marker "Invalid login: 454 4.7.0 too many login attempts" = true /\
  stopRequested holding = false /\
  send_gmail_sent holding (Rejected auth_quota_error) =
    done (finally holding) [Respond 500 (failure_body msg_auth false false)] /\
  classify false auth_quota_error =
    Some (classified AuthenticationFailed msg_auth false).
Proof. repeat split; reflexivity. Qed.

Lemma classify_quota error m :
  message error = Some m ->
  quota_marker m = true \/ code_is error "EMAXLIMIT" = true ->
  code_is error "EAUTH" = false ->
  code_is error "EENVELOPE" = false ->
  includes m "Invalid login" = false ->
  includes m "self signed certificate" = false ->
  classify false error = Some (classified QuotaExceeded msg_quota true).
Proof.
  intros Hm Hq Hauth Henv Hlogin Hcert. unfold classify.
  rewrite Hauth, Henv, Hm, Hlogin, Hcert.
  destruct Hq as [-> | ->]; [reflexivity|].
  now rewrite orb_true_r.
Qed.

(** C8 (amended). When [verify()] or [sendMail()] of /send-gmail fails with
    an error whose message contains a sending-limit marker (or whose code is
    EMAXLIMIT), no stop was requested, and no earlier arm of the chain
    applies (the code is neither EAUTH nor EENVELOPE, the message contains
    neither "Invalid login" nor "self signed certificate"), the failure is
    classified QuotaExceeded and the 500 response has [shouldWait: true]. *)
Theorem quota_failure_should_wait (g : Globals) (error : JsError) (m : string) :
  stopRequested g = false ->
  message error = Some m ->
  quota_marker m = true \/ code_is error "EMAXLIMIT" = true ->
  code_is error "EAUTH" = false ->
  code_is error "EENVELOPE" = false ->
  includes m "Invalid login" = false ->
  includes m "self signed certificate" = false ->
  option_map kind (classify (stopRequested g) error) = Some QuotaExceeded /\
  (forall mo, send_gmail_verified g mo (Rejected error) =
              done (finally g) [Respond 500 (failure_body msg_quota true false)]) /\
  send_gmail_sent g (Rejected error) =
    done (finally g) [Respond 500 (failure_body msg_quota true false)] /\
  get_path ["shouldWait"] (failure_body msg_quota true false) = Some (VBool true).
Proof.
  intros Hstop Hm Hq Hauth Henv Hlogin Hcert.
  pose proof (classify_quota error m Hm Hq Hauth Henv Hlogin Hcert) as Hc.
  rewrite Hstop. rewrite Hc. split; [reflexivity|].
  unfold send_gmail_verified, send_gmail_sent, await, bind, catch_with.
  rewrite Hstop, Hc. repeat split; reflexivity.
Qed.

Lemma quota_failure_should_wait_witness :
  option_map kind (classify (stopRequested holding) quota_error) = Some QuotaExceeded /\
  (forall mo, send_gmail_verified holding mo (Rejected quota_error) =
              done (finally holding) [Respond 500 (failure_body msg_quota true false)]) /\
  send_gmail_sent holding (Rejected quota_error) =
    done (finally holding) [Respond 500 (failure_body msg_quota true false)] /\
  get_path ["shouldWait"] (failure_body msg_quota true false) = Some (VBool true).
Proof.
  apply (quota_failure_should_wait holding quota_error
           "550 5.4.5 Daily user sending quota exceeded");
    try reflexivity.
  left. reflexivity.
Defined.

(** ** Cancellation *)

(** A request rejected with 429 while a stop is pending says nothing about
    the interruption: its body has no [interrupted] key. *)
Lemma rejection_silent_about_stop :
  stopRequested cancelling = true /\
  run_turn cancelling (Arrive SendGmail two_lines) =
    done cancelling [Respond 429 (plain_body false msg_busy)] /\
  is_failure_response (Respond 429 (plain_body false msg_busy)) = true /\
  get_path ["interrupted"] (plain_body false msg_busy) = None /\
  get_path ["interrupted"] (plain_body false msg_busy)
    <> Some (VBool (stopRequested cancelling)).
Proof. repeat split; try reflexivity. discriminate. Qed.

Lemma catch_with_interrupted_flag chain g effects error status body :
  Forall (fun e => is_response e = false) effects ->
  In (Respond status body) (out_effects (catch_with chain g effects error)) ->
  status = 500 /\
  get_path ["interrupted"] body = Some (VBool (stopRequested g)).
Proof.
  intros Hquiet. rewrite catch_with_effects. intros Hin.
  apply in_app_or in Hin. destruct Hin as [Hin|[Heq|[]]].
  - now apply quiet_not_in in Hin.
  - destruct (chain (stopRequested g) error); [|discriminate].
    injection Heq as <- <-. split; reflexivity.
Qed.

(** C9 (amended). A checkpoint of /send-gmail that finds [stopRequested]
    raised ends the turn with the Interrupted failure and submits nothing;
    and every HTTP 500 failure response of /send-gmail reports
    [interrupted] equal to [stopRequested] as it stands when the response is
    written.  (The 400 and 429 responses have no [interrupted] key.) *)
Theorem cancellation_observed :
  (forall g body mo,
      stopRequested g = true ->
      incomplete body = false ->
      build_mailOptions body = Normal mo ->
      send_gmail_try g body =
        done (finally g)
             [CreateTransport (transport_options body);
              Respond 500 (failure_body msg_interrupted false true)]) /\
  (forall g mo value,
      stopRequested g = true ->
      send_gmail_verified g mo (Resolved value) =
        done (finally g) [Respond 500 (failure_body msg_interrupted false true)]) /\
  (forall error,
      option_map kind (classify true error) = Some Interrupted) /\
  (forall g body status b,
      In (Respond status b) (out_effects (send_gmail_try g body)) ->
      status = 500 ->
      get_path ["interrupted"] b = Some (VBool (stopRequested g))) /\
  (forall g mo r status b,
      In (Respond status b) (out_effects (send_gmail_verified g mo r)) ->
      status = 500 ->
      get_path ["interrupted"] b = Some (VBool (stopRequested g))) /\
  (forall g r status b,
      In (Respond status b) (out_effects (send_gmail_sent g r)) ->
      status = 500 ->
      get_path ["interrupted"] b = Some (VBool (stopRequested g))).
Proof.
  repeat match goal with |- _ /\ _ => split end.
  - intros g body mo Hstop Hcomplete Hbuild.
    unfold send_gmail_try, bind. rewrite Hcomplete, Hbuild.
    rewrite (checkpoint_raised g Hstop). unfold catch_with.
    now rewrite Hstop.
  - intros g mo value Hstop. unfold send_gmail_verified, await, bind.
    rewrite (checkpoint_raised g Hstop). unfold catch_with.
    now rewrite Hstop.
  - reflexivity.
  - intros g body status b Hin ->. revert Hin.
    unfold send_gmail_try, bind. destruct (incomplete body).
    + intros [Heq|[]]. discriminate.
    + destruct (build_mailOptions body) as [mo|e];
        [destruct (checkpoint g) as [[]|e]|].
      * intros [Heq|[Heq|[]]]; discriminate.
      * intros Hin. eapply catch_with_interrupted_flag; [|exact Hin].
        repeat constructor.
      * intros Hin. eapply catch_with_interrupted_flag; [|exact Hin].
        repeat constructor.
  - intros g mo r status b Hin _. revert Hin.
    unfold send_gmail_verified, await, bind.
    destruct r as [[]|e]; [destruct (checkpoint g) as [[]|e]|].
    + intros [Heq|[]]. discriminate.
    + intros Hin. eapply catch_with_interrupted_flag; [|exact Hin]. constructor.
    + intros Hin. eapply catch_with_interrupted_flag; [|exact Hin]. constructor.
  - intros g r status b Hin ->. revert Hin.
    unfold send_gmail_sent, await. destruct r as [result|e].
    + intros [Heq|[]]. discriminate.
    + intros Hin. eapply catch_with_interrupted_flag; [|exact Hin]. constructor.
Qed.

Lemma cancellation_observed_witness :
  send_gmail_verified cancelling two_lines_mail (Resolved tt) =
    done (finally cancelling) [Respond 500 (failure_body msg_interrupted false true)] /\
  get_path ["interrupted"] (failure_body msg_interrupted false true) =
    Some (VBool (stopRequested cancelling)).
Proof.
  split.
  - apply (proj1 (proj2 cancellation_observed) cancelling two_lines_mail tt).
    reflexivity.
  - apply (proj1 (proj2 (proj2 (proj2 (proj2 cancellation_observed))))
             cancelling two_lines_mail (Resolved tt) 500).
    + vm_compute. left. reflexivity.
    + reflexivity.
Defined.

(** ** GET /status *)

(** C10. The body of every GET /status response reports the same value
    under [emails.today] and [emails.total]: on the normal path both are the
    process-lifetime [emailCount]; the error response reports neither. *)
Theorem status_today_is_total (g : Globals) (readings : option Readings) :
  exists status body,
    out_effects (get_status g readings) = [Respond status body] /\
    get_path ["emails"; "today"] body = get_path ["emails"; "total"] body /\
    get_path ["emails"; "today"] body =
      match readings with
      | Some _ => Some (VNum (emailCount g))
      | None => None
      end.
Proof.
  destruct readings as [r|]; simpl; eexists _, _; repeat split; reflexivity.
Qed.

(** ** The scenarios of the specification, run on the model *)

(** Scenario A: after a delivery, GET /sending-status shows the gate free
    and one message counted. *)
Example scenario_status_after_delivery :
  run boot (successful_send ++ [GetSendingStatus]) =
    Some (after_first_send,
          [CreateTransport (transport_options two_lines); Verify;
           SendMail two_lines_mail;
           Respond 200 (success_body delivered 1);
           Respond 200 (VObj [("isSending", VBool false);
                              ("stopRequested", VBool false);
                              ("emailCount", VNum 1)])]).
Proof. reflexivity. Qed.

(** Scenario C: a second request sent before the first completes is
    answered 429; the first completes normally. *)
Example scenario_back_to_back :
  run boot [PostSendGmail two_lines; PostSendGmail with_html;
            VerifyDone 0 (Resolved tt); SendMailDone 0 (Resolved delivered)] =
    Some (after_first_send,
          [CreateTransport (transport_options two_lines); Verify;
           Respond 429 (plain_body false msg_busy);
           SendMail two_lines_mail;
           Respond 200 (success_body delivered 1)]).
Proof. reflexivity. Qed.

(** Scenario D: a stop requested while [sendMail()] is in flight, followed
    by the transport failing, is reported as an interruption. *)
Example scenario_stop_then_failure :
  run boot [PostSendGmail two_lines; VerifyDone 0 (Resolved tt);
            PostStopSending; SendMailDone 0 (Rejected (Error "Connection closed"))] =
    Some (boot,
          [CreateTransport (transport_options two_lines); Verify;
           SendMail two_lines_mail;
           Respond 200 (plain_body true msg_stop_requested);
           Respond 500 (failure_body msg_interrupted false true)]).
Proof. reflexivity. Qed.

(** A stop requested while [verify()] is in flight is seen by the second
    checkpoint: nothing is submitted. *)
Example scenario_stop_before_submission :
  run boot [PostSendGmail two_lines; PostStopSending; VerifyDone 0 (Resolved tt)] =
    Some (boot,
          [CreateTransport (transport_options two_lines); Verify;
           Respond 200 (plain_body true msg_stop_requested);
           Respond 500 (failure_body msg_interrupted false true)]).
Proof. reflexivity. Qed.

(** Cancellation is cooperative: a stop that arrives once [sendMail()] is
    under way does not undo a delivery that then succeeds. *)
Example scenario_stop_too_late :
  run boot [PostSendGmail two_lines; VerifyDone 0 (Resolved tt);
            PostStopSending; SendMailDone 0 (Resolved delivered)] =
    Some (after_first_send,
          [CreateTransport (transport_options two_lines); Verify;
           SendMail two_lines_mail;
           Respond 200 (plain_body true msg_stop_requested);
           Respond 200 (success_body delivered 1)]).
Proof. reflexivity. Qed.

(** Scenario E: a quota error from the transport asks the caller to wait. *)
Example scenario_quota :
  run boot [PostSendGmail two_lines; VerifyDone 0 (Resolved tt);
            SendMailDone 0 (Rejected quota_error)] =
    Some (boot,
          [CreateTransport (transport_options two_lines); Verify;
           SendMail two_lines_mail;
           Respond 500 (failure_body msg_quota true false)]).
Proof. reflexivity. Qed.

(** An error without a [message] makes the [catch] itself throw: no
    response is written, yet the gate is released. *)
Example scenario_fault_in_catch :
  run boot [PostSendGmail two_lines;
            VerifyDone 0 (Rejected {| code := Some "ESOCKET"; message := None |})] =
    Some (boot,
          [CreateTransport (transport_options two_lines); Verify;
           UnhandledRejection]).
Proof. reflexivity. Qed.

(** A text that is not a string has no [replace]: with no [html] to fall
    back on, the request ends in the [catch] with the transporter created
    but never used. *)
Example scenario_text_not_a_string :
  out_effects
    (send_gmail initial
       {| user := VStr "rodrigo@gmail.com"; password := VStr "app-password";
          from := VUndef; to := VStr "cliente@example.com";
          subject := VStr "Proposta"; text := VNum 42; html := VUndef;
          attachments := None |}) =
    [CreateTransport
       (VObj [("service", VStr "gmail");
              ("auth", VObj [("user", VStr "rodrigo@gmail.com");
                             ("pass", VStr "app-password")]);
              ("debug", VBool false); ("logger", VBool false)]);
     Respond 500 (failure_body "text.replace is not a function" false false)].
Proof. reflexivity. Qed.

(** * Further properties of the handlers *)

(** ** The gate over whole runs *)

(** From boot onwards at most one send handler is suspended; [isSending] is
    up exactly while one is, and [stopRequested] is never up without it. *)
Theorem at_most_one_send_in_flight (events : list Event) (s : System)
    (effects : list Effect) :
  run boot events = Some (s, effects) ->
  (List.length (inflight s) <= 1)%nat /\
  (isSending (globals s) = true <-> inflight s <> []) /\
  (stopRequested (globals s) = true -> isSending (globals s) = true).
Proof.
  intros Hrun.
  pose proof (run_single_flight events boot s effects boot_single_flight Hrun) as Inv.
  unfold single_flight in Inv.
  destruct (inflight s) as [|p [|q fl]]; [| |contradiction].
  - destruct Inv as [Hs Hstop]. rewrite Hs, Hstop. repeat split.
    + simpl. lia.
    + discriminate.
    + intros H. now contradiction H.
    + discriminate.
  - rewrite Inv. repeat split; [simpl; lia|discriminate].
Qed.

Lemma at_most_one_send_in_flight_witness :
  (List.length (inflight {| globals := cancelling;
                            inflight := [AwaitVerify two_lines_mail] |}) <= 1)%nat /\
  (isSending cancelling = true <-> [AwaitVerify two_lines_mail] <> []) /\
  (stopRequested cancelling = true -> isSending cancelling = true).
Proof.
  apply (at_most_one_send_in_flight
           [PostSendGmail two_lines; PostSendGmailSimple two_lines; PostStopSending]
           {| globals := cancelling; inflight := [AwaitVerify two_lines_mail] |}
           [CreateTransport (transport_options two_lines); Verify;
            Respond 429 (plain_body false msg_busy);
            Respond 200 (plain_body true msg_stop_requested)]).
  reflexivity.
Defined.



(** The read-only routes answer once and leave the server as it was. *)
Theorem reads_leave_the_server_unchanged (s : System) :
  (forall readings, exists status body,
      step s (GetStatus readings) = Some (s, [Respond status body])) /\
  (forall now, exists body,
      step s (GetHealth now) = Some (s, [Respond 200 body]) /\
      get_path ["isSending"] body = Some (VBool (isSending (globals s)))) /\
  (exists body,
      step s GetSendingStatus = Some (s, [Respond 200 body]) /\
      get_path ["isSending"] body = Some (VBool (isSending (globals s))) /\
      get_path ["stopRequested"] body = Some (VBool (stopRequested (globals s))) /\
      get_path ["emailCount"] body = Some (VNum (emailCount (globals s)))).
Proof.
  destruct s as [g fl]. repeat split.
  - intros [r|]; simpl; unfold arrive; simpl; rewrite app_nil_r;
      eexists _, _; reflexivity.
  - intros now. simpl. unfold arrive. simpl. rewrite app_nil_r.
    eexists. split; reflexivity.
  - simpl. unfold arrive. simpl. rewrite app_nil_r.
    eexists. repeat split; reflexivity.
Qed.

(** ** Checkpoints that cannot fire *)

(** /send-gmail-simple polls [stopRequested] only in the turn that has just
    cleared it: a complete request that finds the gate free always creates
    its transport and submits its message in that same turn. *)
Theorem simple_route_always_submits (g : Globals) (body : Body) :
  isSending g = false ->
  incomplete body = false ->
  send_gmail_simple g body =
    suspend (acquire g)
            [CreateTransport (transport_options_simple body);
             SendMail (mailOptions_simple body)]
            AwaitSendMailSimple.
Proof.
  intros Hfree Hc. unfold send_gmail_simple, send_gmail_simple_try.
  rewrite Hfree, Hc. reflexivity.
Qed.

Lemma simple_route_always_submits_witness :
  send_gmail_simple (set_stopRequested true initial) two_lines =
    suspend (acquire (set_stopRequested true initial))
            [CreateTransport (transport_options_simple two_lines);
             SendMail (mailOptions_simple two_lines)]
            AwaitSendMailSimple.
Proof.
  apply (simple_route_always_submits (set_stopRequested true initial) two_lines);
    reflexivity.
Defined.

(** The first checkpoint of /send-gmail is in the same position: once the
    message is built, the arrival turn always goes on to [verify()]. *)
Theorem first_checkpoint_never_fires (g : Globals) (body : Body) (mo : JsVal) :
  isSending g = false ->
  incomplete body = false ->
  build_mailOptions body = Normal mo ->
  send_gmail g body =
    suspend (acquire g) [CreateTransport (transport_options body); Verify]
            (AwaitVerify mo).
Proof.
  intros Hfree Hc Hb. unfold send_gmail, send_gmail_try, bind.
  rewrite Hfree, Hc, Hb. reflexivity.
Qed.

Lemma first_checkpoint_never_fires_witness :
  send_gmail (set_stopRequested true initial) two_lines =
    suspend (acquire (set_stopRequested true initial))
            [CreateTransport (transport_options two_lines); Verify]
            (AwaitVerify two_lines_mail).
Proof.
  apply (first_checkpoint_never_fires (set_stopRequested true initial)
           two_lines two_lines_mail); reflexivity.
Defined.

(** A send that starts never inherits an earlier stop request: with the
    gate free, the arrival turn is the same whatever [stopRequested] was. *)
Theorem stale_stop_is_forgotten (g : Globals) (b : bool) (route : Route)
    (body : Body) :
  isSending g = false ->
  run_turn (set_stopRequested b g) (Arrive route body) =
  run_turn g (Arrive route body).
Proof.
  intros Hfree. destruct route; simpl;
    unfold send_gmail, send_gmail_simple; simpl; rewrite Hfree; reflexivity.
Qed.

Lemma stale_stop_is_forgotten_witness :
  run_turn (set_stopRequested true initial) (Arrive SendGmail two_lines) =
  run_turn initial (Arrive SendGmail two_lines).
Proof.
  apply (stale_stop_is_forgotten initial true SendGmail two_lines). reflexivity.
Defined.

(** ** What the [catch] blocks answer *)

(** Once a stop is requested, whatever the transport then reports as a
    failure, on either route, is answered as an interruption with
    [shouldWait: false]: the error itself, a quota error included, is not
    looked at. *)
Theorem stop_masks_transport_errors (g : Globals) (error : JsError) :
  stopRequested g = true ->
  (forall mo, send_gmail_verified g mo (Rejected error) =
              done (finally g) [Respond 500 (failure_body msg_interrupted false true)]) /\
  send_gmail_sent g (Rejected error) =
    done (finally g) [Respond 500 (failure_body msg_interrupted false true)] /\
  send_gmail_simple_sent g (Rejected error) =
    done (finally g) [Respond 500 (failure_body msg_interrupted false true)].
Proof.
  intros Hstop.
  unfold send_gmail_verified, send_gmail_sent, send_gmail_simple_sent,
    await, bind, catch_with.
  rewrite Hstop. repeat split; reflexivity.
Qed.

Lemma stop_masks_transport_errors_witness :
  send_gmail_sent cancelling (Rejected quota_error) =
    done (finally cancelling) [Respond 500 (failure_body msg_interrupted false true)].
Proof.
  apply (stop_masks_transport_errors cancelling quota_error). reflexivity.
Defined.

Lemma classify_none stop error :
  classify stop error = None <->
  stop = false /\ code_is error "EAUTH" = false /\
  code_is error "EENVELOPE" = false /\ message error = None.
Proof.
  unfold classify. destruct stop.
  - split; [discriminate|]. now intros [H _].
  - destruct (code_is error "EAUTH").
    + split; [discriminate|]. now intros (_ & H & _).
    + destruct (code_is error "EENVELOPE").
      * split; [discriminate|]. now intros (_ & _ & H & _).
      * destruct (message error) as [m|].
        -- split; [|now intros (_ & _ & _ & H)].
           destruct (includes m "Invalid login"); [discriminate|].
           destruct (includes m "self signed certificate"); [discriminate|].
           destruct (quota_marker m || code_is error "EMAXLIMIT"); [discriminate|].
           destruct (includes m "Message rejected" || includes m "suspicious activity");
             discriminate.
        -- split; auto.
Qed.

(** A failed [sendMail()] of /send-gmail goes unanswered exactly when no
    stop is requested and the error has no [message] and a code other than
    EAUTH and EENVELOPE: the chain's first [.includes] throws inside the
    [catch].  On /send-gmail-simple the code plays no part. *)
Theorem failure_unanswered_iff (g : Globals) (error : JsError) :
  (response_status (out_effects (send_gmail_sent g (Rejected error))) = None <->
   stopRequested g = false /\ code_is error "EAUTH" = false /\
   code_is error "EENVELOPE" = false /\ message error = None) /\
  (response_status (out_effects (send_gmail_simple_sent g (Rejected error))) = None <->
   stopRequested g = false /\ message error = None).
Proof.
  unfold send_gmail_sent, send_gmail_simple_sent, await, catch_with. split.
  - rewrite <- classify_none.
    destruct (classify (stopRequested g) error); simpl; split;
      try discriminate; reflexivity.
  - unfold classify_simple. destruct (stopRequested g); simpl.
    + split; [discriminate|]. now intros [H _].
    + destruct (message error) as [m|]; simpl.
      * destruct (quota_marker m); simpl; split; try discriminate;
          now intros [_ H].
      * split; auto.
Qed.

(** [shouldWait] is raised only for an error that carries one of the limit
    or blocking markers (or the code EMAXLIMIT), and never when a stop was
    requested. *)
Theorem should_wait_only_on_limits (stop : bool) (error : JsError) (c : Classified) :
  classify stop error = Some c ->
  shouldWait c = true ->
  stop = false /\
  exists m, message error = Some m /\
    (quota_marker m = true \/ code_is error "EMAXLIMIT" = true \/
     includes m "Message rejected" = true \/
     includes m "suspicious activity" = true).
Proof.
  unfold classify. destruct stop; [now intros [= <-]|].
  destruct (code_is error "EAUTH"); [now intros [= <-]|].
  destruct (code_is error "EENVELOPE"); [now intros [= <-]|].
  destruct (message error) as [m|]; [|discriminate].
  destruct (includes m "Invalid login"); [now intros [= <-]|].
  destruct (includes m "self signed certificate"); [now intros [= <-]|].
  destruct (quota_marker m) eqn:Hq; simpl.
  { intros _ _. split; [reflexivity|]. exists m. auto. }
  destruct (code_is error "EMAXLIMIT") eqn:Hmax.
  { intros _ _. split; [reflexivity|]. exists m. auto. }
  destruct (includes m "Message rejected") eqn:Hrej; simpl.
  { intros _ _. split; [reflexivity|]. exists m. auto. }
  destruct (includes m "suspicious activity") eqn:Hsus.
  { intros _ _. split; [reflexivity|]. exists m. auto 6. }
  now intros [= <-].
Qed.

Lemma should_wait_only_on_limits_witness :
  false = false /\
  exists m, message quota_error = Some m /\
    (quota_marker m = true \/ code_is quota_error "EMAXLIMIT" = true \/
     includes m "Message rejected" = true \/
     includes m "suspicious activity" = true).
Proof.
  apply (should_wait_only_on_limits false quota_error
           (classified QuotaExceeded msg_quota true)); reflexivity.
Defined.

(** The chain of /send-gmail-simple never reads [error.code]: two errors
    with the same message are answered alike, so an EAUTH or EMAXLIMIT error
    gets no treatment of its own there. *)
Theorem simple_chain_ignores_code (g : Globals) (e1 e2 : JsError) :
  message e1 = message e2 ->
  send_gmail_simple_sent g (Rejected e1) = send_gmail_simple_sent g (Rejected e2).
Proof.
  intros H. unfold send_gmail_simple_sent, await, catch_with, classify_simple.
  now rewrite H.
Qed.

Lemma simple_chain_ignores_code_witness :
  send_gmail_simple_sent holding (Rejected auth_quota_error) =
  send_gmail_simple_sent holding
    (Rejected (Error "Invalid login: 454 4.7.0 too many login attempts")).
Proof.
  apply (simple_chain_ignores_code holding auth_quota_error
           (Error "Invalid login: 454 4.7.0 too many login attempts")).
  reflexivity.
Defined.

(** ** Attachments *)

Lemma map_attachment_ok att :
  att <> VNull -> att <> VUndef ->
  exists f c t,
    map_attachment att =
    Normal (VObj [("filename", f); ("content", c);
                  ("encoding", VStr "base64"); ("contentType", t)]).
Proof.
  intros Hn Hu. unfold map_attachment, bind, get_prop.
  destruct att; try contradiction; eexists _, _, _; reflexivity.
Qed.

Lemma map_attachment_throws att :
  att = VNull \/ att = VUndef -> exists msg, map_attachment att = Throw (Error msg).
Proof. intros [-> | ->]; eexists; reflexivity. Qed.

(** Every attachment handed to [sendMail] has exactly the four keys
    filename, content, encoding and contentType, with the encoding forced
    to base64 whatever the request said; none is dropped or added. *)
Theorem attachments_forced_base64 (atts mapped : list JsVal) :
  map_attachments atts = Normal mapped ->
  List.length mapped = List.length atts /\
  Forall (fun a => exists f c t,
              a = VObj [("filename", f); ("content", c);
                        ("encoding", VStr "base64"); ("contentType", t)])
         mapped.
Proof.
  revert mapped. induction atts as [|att rest IH]; simpl; intros mapped H.
  - injection H as <-. split; [reflexivity|constructor].
  - unfold bind in H. destruct (map_attachment att) as [a|e] eqn:Ha; [|discriminate].
    destruct (map_attachments rest) as [r|e]; [|discriminate].
    injection H as <-. destruct (IH r eq_refl) as [Hlen Hall]. split.
    + simpl. now rewrite Hlen.
    + constructor; [|exact Hall].
      unfold map_attachment, bind, get_prop in Ha.
      destruct att; try discriminate; injection Ha as <-;
        eexists _, _, _; reflexivity.
Qed.

Lemma attachments_forced_base64_witness :
  List.length
    [VObj [("filename", VStr "proposta.pdf"); ("content", VStr "JVBERi0xLjQK");
           ("encoding", VStr "base64");
           ("contentType", VStr "application/pdf")]] = 1%nat /\
  Forall (fun a => exists f c t,
              a = VObj [("filename", f); ("content", c);
                        ("encoding", VStr "base64"); ("contentType", t)])
    [VObj [("filename", VStr "proposta.pdf"); ("content", VStr "JVBERi0xLjQK");
           ("encoding", VStr "base64");
           ("contentType", VStr "application/pdf")]].
Proof.
  apply (attachments_forced_base64
           [VObj [("filename", VStr "proposta.pdf");
                  ("content", VStr "JVBERi0xLjQK");
                  ("contentType", VStr "application/pdf");
                  ("encoding", VStr "7bit")]]).
  reflexivity.
Defined.

Lemma map_attachments_throws (atts : list JsVal) :
  (exists e, map_attachments atts = Throw e) <-> (In VNull atts \/ In VUndef atts).
Proof.
  induction atts as [|att rest IH]; simpl.
  - split; [intros [e H]; discriminate|intros [[]|[]]].
  - unfold bind. split.
    + intros [e H]. destruct (map_attachment att) as [a|e'] eqn:Ha.
      * destruct (map_attachments rest) as [r|e'']; [discriminate|].
        destruct (proj1 IH (ex_intro _ e'' eq_refl)); auto.
      * unfold map_attachment, bind, get_prop in Ha.
        destruct att; try discriminate; auto.
    + intros H.
      assert (Hcase : (att = VNull \/ att = VUndef) \/
                      (att <> VNull /\ att <> VUndef /\
                       (In VNull rest \/ In VUndef rest))).
      { destruct att; try (left; auto; fail);
          right; (split; [discriminate|split; [discriminate|]]);
          destruct H as [[H|H]|[H|H]]; try discriminate; auto. }
      destruct Hcase as [Hbad|(Hn & Hu & Hrest)].
      * destruct (map_attachment_throws att Hbad) as [msg ->]. now eexists.
      * destruct (map_attachment_ok att Hn Hu) as (f & c & t & ->).
        destruct (proj2 IH Hrest) as [e ->]. now eexists.
Qed.

(** Mapping the attachments throws exactly when the array holds a [null]
    (or an [undefined]) element. *)
Theorem attachments_throw_iff_null (atts : list JsVal) :
  (exists e, map_attachments atts = Throw e) <-> (In VNull atts \/ In VUndef atts).
Proof.
  split.
  - intros [e He]. apply (proj1 (map_attachments_throws atts)). now exists e.
  - intros Hbad. destruct (proj2 (map_attachments_throws atts) Hbad) as [e He].
    now exists e.
Qed.

Lemma map_attachments_error atts e :
  map_attachments atts = Throw e -> exists msg, e = Error msg.
Proof.
  revert e. induction atts as [|a l IH]; simpl; intros e Hm; [discriminate|].
  unfold bind in Hm. destruct (map_attachment a) as [x|ex] eqn:Ha.
  - destruct (map_attachments l) as [r|el]; [discriminate|].
    injection Hm as <-. now apply IH.
  - injection Hm as <-. unfold map_attachment, bind, get_prop in Ha.
    destruct a; try discriminate; injection Ha as <-; now eexists.
Qed.

(** Whatever building the message throws is an engine error with a text. *)
Lemma build_mailOptions_error body e :
  build_mailOptions body = Throw e -> exists msg, e = Error msg.
Proof.
  unfold build_mailOptions, bind, html_or_default.
  assert (Hatt : forall h,
             match attachments body with
             | Some (att :: rest) =>
                 match map_attachments (att :: rest) with
                 | Normal mapped =>
                     Normal (VObj ([("from", js_or (from body) (user body));
                                    ("to", to body); ("subject", subject body);
                                    ("text", text body); ("html", h)]
                                   ++ [("attachments", VArr mapped)]))
                 | Throw e0 => Throw e0
                 end
             | _ => Normal (VObj [("from", js_or (from body) (user body));
                                  ("to", to body); ("subject", subject body);
                                  ("text", text body); ("html", h)])
             end = Throw e -> exists msg, e = Error msg).
  { intros h. destruct (attachments body) as [[|att rest]|]; try discriminate.
    destruct (map_attachments (att :: rest)) as [r|e'] eqn:Hm; [discriminate|].
    intros [= <-]. exact (map_attachments_error _ _ Hm). }
  destruct (truthy (html body)); [apply Hatt|].
  destruct (text body); try (intros [= <-]; now eexists). apply Hatt.
Qed.

(** A complete /send-gmail request whose attachment array holds a [null]
    is answered 500 in its arrival turn with the gate released: the
    transporter is created, but nothing is verified or submitted. *)
Theorem null_attachment_never_sent (g : Globals) (body : Body) (atts : list JsVal) :
  isSending g = false ->
  incomplete body = false ->
  attachments body = Some atts ->
  In VNull atts ->
  exists msg shouldWait,
    send_gmail g body =
      done (finally g)
           [CreateTransport (transport_options body);
            Respond 500 (failure_body msg shouldWait false)].
Proof.
  intros Hfree Hc Hatts Hin.
  assert (Hthrow : exists e, build_mailOptions body = Throw e).
  { unfold build_mailOptions, bind.
    destruct (html_or_default (html body) (text body)) as [h|e]; [|now eexists].
    rewrite Hatts. destruct atts as [|att rest]; [contradiction|].
    destruct (proj2 (map_attachments_throws (att :: rest)) (or_introl Hin))
      as [e ->]. now eexists. }
  destruct Hthrow as [e He].
  destruct (build_mailOptions_error _ _ He) as [msg ->].
  unfold send_gmail, send_gmail_try, bind, catch_with.
  rewrite Hfree, Hc, He.
  change (stopRequested (acquire g)) with false.
  destruct (classify false (Error msg)) as [c|] eqn:Hcl.
  - exists (errorMessage c), (shouldWait c). reflexivity.
  - apply classify_none in Hcl. destruct Hcl as (_ & _ & _ & H). discriminate.
Qed.

Lemma null_attachment_never_sent_witness :
  exists msg shouldWait,
    send_gmail initial with_null_attachment =
      done (finally initial)
           [CreateTransport (transport_options with_null_attachment);
            Respond 500 (failure_body msg shouldWait false)].
Proof.
  apply (null_attachment_never_sent initial with_null_attachment [VNull]);
    try reflexivity.
  left. reflexivity.
Defined.

(** ** The message handed to the transport *)

(** The message /send-gmail prepares carries [to], [subject] and [text] as
    received and takes [from] from the request when truthy, otherwise from
    [user]; it has an [attachments] key exactly when the request brought a
    non-empty array. *)
Theorem mail_fields_passed_through (g : Globals) (body : Body) (mo : JsVal) :
  out_pending (send_gmail g body) = Some (AwaitVerify mo) ->
  get_path ["to"] mo = Some (to body) /\
  get_path ["subject"] mo = Some (subject body) /\
  get_path ["text"] mo = Some (text body) /\
  get_path ["from"] mo = Some (if truthy (from body) then from body else user body) /\
  (get_path ["attachments"] mo = None <->
   attachments body = None \/ attachments body = Some []).
Proof.
  intros Hp. apply send_gmail_await_verify in Hp. revert Hp.
  unfold build_mailOptions, bind, js_or.
  destruct (html_or_default (html body) (text body)) as [h|e]; [|discriminate].
  destruct (attachments body) as [[|att rest]|].
  - intros [= <-]. repeat split; auto.
  - destruct (map_attachments (att :: rest)); [|discriminate].
    intros [= <-]. repeat split; try reflexivity.
    + discriminate.
    + intros [H|H]; discriminate.
  - intros [= <-]. repeat split; auto.
Qed.

Lemma mail_fields_passed_through_witness :
  out_pending (send_gmail initial with_attachment) =
    Some (AwaitVerify
            (VObj [("from", VStr "Rodrigo <rodrigo@gmail.com>");
                   ("to", VStr "cliente@example.com");
                   ("subject", VStr "Proposta");
                   ("text", VStr ("Bom dia," ++ LF ++ "segue a proposta."));
                   ("html", VStr "Bom dia,<br>segue a proposta.");
                   ("attachments",
                    VArr [VObj [("filename", VStr "proposta.pdf");
                                ("content", VStr "JVBERi0xLjQK");
                                ("encoding", VStr "base64");
                                ("contentType", VStr "application/pdf")]])])) /\
  get_path ["from"]
    (VObj [("from", VStr "Rodrigo <rodrigo@gmail.com>");
           ("to", VStr "cliente@example.com");
           ("subject", VStr "Proposta");
           ("text", VStr ("Bom dia," ++ LF ++ "segue a proposta."));
           ("html", VStr "Bom dia,<br>segue a proposta.");
           ("attachments",
            VArr [VObj [("filename", VStr "proposta.pdf");
                        ("content", VStr "JVBERi0xLjQK");
                        ("encoding", VStr "base64");
                        ("contentType", VStr "application/pdf")]])]) =
    Some (VStr "Rodrigo <rodrigo@gmail.com>").
Proof.
  split; [reflexivity|].
  apply (proj1 (proj2 (proj2 (proj2
           (mail_fields_passed_through initial with_attachment _ eq_refl))))).
Defined.

(** ** Responses of a turn *)

Lemma response_status_quiet pre rest :
  Forall (fun e => is_response e = false) pre ->
  response_status (pre ++ rest) = response_status rest.
Proof.
  induction 1 as [|e pre He _ IH]; [reflexivity|].
  simpl. destruct e; try exact IH. discriminate.
Qed.

Lemma catch_with_status chain g pre error :
  Forall (fun e => is_response e = false) pre ->
  response_status (out_effects (catch_with chain g pre error)) = Some 500 \/
  response_status (out_effects (catch_with chain g pre error)) = None.
Proof.
  intros Hpre. rewrite catch_with_effects, (response_status_quiet _ _ Hpre).
  destruct (chain _ _); simpl; auto.
Qed.

(** How the arrival turn of a send request is answered: 429 exactly when
    the gate is held, 400 exactly when the gate is free and a required field
    is falsy (missing, empty, [null], [0] or [false]); never with 200, since
    no delivery completes in the turn that starts it. *)
Theorem arrival_status_table (g : Globals) (route : Route) (body : Body) :
  let status := response_status (out_effects (run_turn g (Arrive route body))) in
  (status = Some 429 <-> isSending g = true) /\
  (status = Some 400 <-> isSending g = false /\ incomplete body = true) /\
  status <> Some 200.
Proof.
  assert (Hquiet1 : forall e : Effect, is_response e = false ->
                      Forall (fun e => is_response e = false) [e])
    by (intros; now repeat constructor).
  destruct route; simpl;
    unfold send_gmail, send_gmail_simple, send_gmail_try, send_gmail_simple_try, bind;
    destruct (isSending g); simpl;
    try (repeat split; try discriminate; auto; now intros [H _]).
  - destruct (incomplete body); simpl.
    { repeat split; try discriminate; auto. }
    destruct (build_mailOptions body) as [mo|e]; simpl.
    { repeat split; try discriminate; now intros [_ H]. }
    destruct (catch_with_status classify (acquire g)
                [CreateTransport (transport_options body)] e) as [-> | ->];
      [now apply Hquiet1| |];
      repeat split; try discriminate; now intros [_ H].
  - destruct (incomplete body); simpl.
    { repeat split; try discriminate; auto. }
    repeat split; try discriminate; now intros [_ H].
Qed.

Lemma quiet_no_response pre :
  Forall (fun e => is_response e = false) pre -> filter is_response pre = [].
Proof.
  induction 1 as [|e pre He _ IH]; [reflexivity|]. simpl. now rewrite He.
Qed.

(** No turn of a send handler answers twice: a turn that suspends writes no
    response, and a turn that finishes writes exactly one unless its
    [catch] threw, in which case it writes none. *)
Theorem one_response_per_turn (g : Globals) (t : Turn) :
  let o := run_turn g t in
  (List.length (filter is_response (out_effects o)) <= 1)%nat /\
  (out_pending o <> None -> filter is_response (out_effects o) = []) /\
  (out_pending o = None ->
   List.length (filter is_response (out_effects o)) = 1%nat \/
   In UnhandledRejection (out_effects o)).
Proof.
  simpl. destruct (run_turn_exit g t)
    as [ | g0 Hc | g0 pre c Hc Hpre _ | g0 pre Hc Hpre | result | g0 pre p Hc Hpre];
    simpl out_effects; simpl out_pending;
    rewrite ?filter_app, ?(quiet_no_response _ Hpre); simpl;
    repeat split; auto; try (intros H; now contradiction H); try discriminate.
  intros _. right. apply in_or_app. right. now left.
Qed.

Lemma catch_with_submitted chain g pre error :
  submitted (out_effects (catch_with chain g pre error)) = submitted pre.
Proof.
  rewrite catch_with_effects. induction pre as [|e pre IH]; simpl.
  - now destruct (chain _ _).
  - destruct e; simpl; try exact IH. now rewrite IH.
Qed.

(** A message is submitted in two places only: by /send-gmail in the turn
    that follows a resolved [verify()] with no stop requested, and by
    /send-gmail-simple in the arrival turn of a complete request that finds
    the gate free.  In particular /send-gmail never submits before the
    credentials were verified. *)
Theorem submission_points (g : Globals) (t : Turn) :
  submitted (out_effects (run_turn g t)) <> [] ->
  (exists mo value,
      t = VerifySettled mo (Resolved value) /\ stopRequested g = false /\
      submitted (out_effects (run_turn g t)) = [mo]) \/
  (exists body,
      t = Arrive SendGmailSimple body /\ isSending g = false /\
      incomplete body = false /\
      submitted (out_effects (run_turn g t)) = [mailOptions_simple body]).
Proof.
  destruct t as [[|] body | mo r | [|] r]; simpl.
  - unfold send_gmail, send_gmail_try, bind.
    destruct (isSending g); [now intros H|].
    destruct (incomplete body); [now intros H|].
    destruct (build_mailOptions body) as [mo|e];
      [|rewrite catch_with_submitted; now intros H].
    change (checkpoint (acquire g)) with (Normal tt). now intros H.
  - unfold send_gmail_simple, send_gmail_simple_try.
    destruct (isSending g) eqn:Hs; [now intros H|].
    destruct (incomplete body) eqn:Hc; [now intros H|].
    intros _. right. exists body. repeat split; auto.
  - rewrite verified_submits. destruct r as [value|e]; [|now intros H].
    destruct (stopRequested g) eqn:Hstop; [now intros H|].
    intros _. left. now exists mo, value.
  - unfold send_gmail_sent, await. destruct r; [now intros H|].
    rewrite catch_with_submitted. now intros H.
  - unfold send_gmail_simple_sent, await. destruct r; [now intros H|].
    rewrite catch_with_submitted. now intros H.
Qed.

Lemma submission_points_witness :
  exists mo value,
    VerifySettled two_lines_mail (Resolved tt) = VerifySettled mo (Resolved value) /\
    stopRequested holding = false /\
    submitted (out_effects (run_turn holding
                              (VerifySettled two_lines_mail (Resolved tt)))) = [mo].
Proof.
  destruct (submission_points holding (VerifySettled two_lines_mail (Resolved tt)))
    as [H|(body & Heq & _)].
  - vm_compute. discriminate.
  - exact H.
  - discriminate.
Defined.

(** ** The count reported to the caller *)

Lemma success_counts_app l1 l2 :
  success_counts (l1 ++ l2) = (success_counts l1 ++ success_counts l2)%list.
Proof.
  induction l1 as [|e l1 IH]; [reflexivity|].
  change ((e :: l1) ++ l2)%list with (e :: (l1 ++ l2))%list.
  cbn [success_counts]. destruct (is_success_response e); [|exact IH].
  destruct e; try exact IH.
  destruct (get_path ["emailCount"] body) as [[| | |n| | |]|]; try exact IH.
  rewrite IH. reflexivity.
Qed.

Lemma success_counts_none l :
  filter is_success_response l = [] -> success_counts l = [].
Proof.
  induction l as [|e l IH]; [reflexivity|].
  cbn [filter success_counts].
  destruct (is_success_response e); [discriminate|exact IH].
Qed.

Lemma count_up_app from n1 n2 :
  count_up from (n1 + n2) =
  (count_up from n1 ++ count_up (from + Z.of_nat n1) n2)%list.
Proof.
  revert from. induction n1 as [|n1 IH]; intros from.
  - simpl. now rewrite Z.add_0_r.
  - cbn [count_up Nat.add app]. rewrite IH. do 3 f_equal. lia.
Qed.

Lemma turn_success_counts g o :
  Exit g o ->
  success_counts (out_effects o) =
  count_up (emailCount g) (List.length (filter is_success_response (out_effects o))).
Proof.
  intros [ | g0 Hc | g0 pre c Hc Hpre _ | g0 pre Hc Hpre | result | g0 pre p Hc Hpre];
    simpl out_effects;
    rewrite ?success_counts_app, ?filter_app, ?(quiet_no_success _ Hpre),
      ?(success_counts_none pre (quiet_no_success _ Hpre));
    reflexivity.
Qed.

Lemma step_success_counts s e s' effects :
  step s e = Some (s', effects) ->
  success_counts effects =
  count_up (emailCount (globals s))
           (List.length (filter is_success_response effects)).
Proof.
  destruct s as [g fl].
  destruct e as [body|body| |rd|now| |i r|i r]; simpl; intros Hstep.
  - injection Hstep as _ <-.
    apply (turn_success_counts g _ (run_turn_exit g (Arrive SendGmail body))).
  - injection Hstep as _ <-.
    apply (turn_success_counts g _ (run_turn_exit g (Arrive SendGmailSimple body))).
  - injection Hstep as _ <-. unfold stop_sending.
    now destruct (isSending g).
  - injection Hstep as _ <-. now destruct rd.
  - now injection Hstep as _ <-.
  - now injection Hstep as _ <-.
  - destruct (nth_error fl i) as [[mo| |]|]; try discriminate.
    injection Hstep as _ <-.
    apply (turn_success_counts g _ (run_turn_exit g (VerifySettled mo r))).
  - destruct (nth_error fl i) as [[mo| |]|]; try discriminate;
      injection Hstep as _ <-.
    + apply (turn_success_counts g _ (run_turn_exit g (SendMailSettled SendGmail r))).
    + apply (turn_success_counts g _
               (run_turn_exit g (SendMailSettled SendGmailSimple r))).
Qed.

(** Over any run, the [emailCount] values in the Success responses are
    consecutive: they continue from the counter's value at the start, one
    by one, in the order the deliveries completed, and the last one is the
    counter's final value. *)
Theorem success_responses_number_deliveries (events : list Event) :
  forall s s' effects,
    run s events = Some (s', effects) ->
    success_counts effects =
      count_up (emailCount (globals s))
               (List.length (filter is_success_response effects)) /\
    emailCount (globals s') =
      emailCount (globals s) + Z.of_nat (List.length (success_counts effects)).
Proof.
  assert (Hlen : forall from n, List.length (count_up from n) = n).
  { intros from n. revert from. induction n as [|n IH]; intros from; simpl;
      [reflexivity|now rewrite IH]. }
  assert (Hmain : forall s s' effects,
             run s events = Some (s', effects) ->
             success_counts effects =
             count_up (emailCount (globals s))
                      (List.length (filter is_success_response effects))).
  { induction events as [|e rest IH]; simpl; intros s s' effects Hrun.
    - now injection Hrun as _ <-.
    - destruct (step s e) as [[s1 eff1]|] eqn:Hstep; [|discriminate].
      destruct (run s1 rest) as [[s2 eff2]|] eqn:Hrest; [|discriminate].
      injection Hrun as _ <-.
      rewrite success_counts_app, filter_app, length_app, count_up_app.
      rewrite (step_success_counts _ _ _ _ Hstep), (IH _ _ _ Hrest).
      now rewrite (step_counter _ _ _ _ Hstep). }
  intros s s' effects Hrun. split; [exact (Hmain _ _ _ Hrun)|].
  rewrite (Hmain _ _ _ Hrun), Hlen. exact (run_counter _ _ _ _ Hrun).
Qed.

Lemma success_responses_number_deliveries_witness :
  success_counts
    [CreateTransport (transport_options two_lines); Verify;
     SendMail two_lines_mail;
     Respond 200 (success_body delivered 1);
     CreateTransport (transport_options_simple with_html);
     SendMail (mailOptions_simple with_html);
     Respond 200 (success_body delivered 2)] = [1; 2].
Proof.
  apply (proj1 (success_responses_number_deliveries
                  (successful_send ++
                   [PostSendGmailSimple with_html; SendMailDone 0 (Resolved delivered)])
                  boot
                  {| globals := {| isSending := false; stopRequested := false;
                                   emailCount := 2 |};
                     inflight := [] |}
                  _ eq_refl)).
Defined.

(** ** The default HTML part *)

Lemma replace_newlines_app (a b : string) :
  replace_newlines (a ++ b) = replace_newlines a ++ replace_newlines b.
Proof.
  induction a as [|c a IH]; [reflexivity|].
  cbn [append replace_newlines]. rewrite IH.
  now destruct (c =? ascii_of_nat 10)%char.
Qed.

Lemma includes_tail c s n :
  includes (String c s) n = false -> includes s n = false.
Proof. cbn [includes]. intros H. now apply orb_false_elim in H. Qed.

(** The replacement of line 149 works piece by piece, leaves a text without
    line feeds untouched (so applying it twice changes nothing more), and
    lengthens the text by three characters per line feed. *)
Theorem replace_newlines_facts :
  (forall a b, replace_newlines (a ++ b) = replace_newlines a ++ replace_newlines b) /\
  (forall s, includes s LF = false -> replace_newlines s = s) /\
  (forall s, replace_newlines (replace_newlines s) = replace_newlines s) /\
  (forall s, String.length (replace_newlines s) =
             (String.length s + 3 * (List.length (split_lines s) - 1))%nat).
Proof.
  assert (Hid : forall s, includes s LF = false -> replace_newlines s = s).
  { induction s as [|c s IH]; [reflexivity|]. intros H.
    cbn [replace_newlines].
    destruct (c =? ascii_of_nat 10)%char eqn:E.
    - apply Ascii.eqb_eq in E. subst c.
      assert (Hp : prefix LF (String (ascii_of_nat 10) s) = true)
        by (apply prefix_app; now exists s).
      cbn [includes] in H. rewrite Hp in H. discriminate.
    - f_equal. apply IH. exact (includes_tail _ _ _ H). }
  repeat split.
  - apply replace_newlines_app.
  - exact Hid.
  - intros s. apply Hid. apply replace_newlines_no_LF.
  - induction s as [|c s IH]; [reflexivity|].
    cbn [replace_newlines split_lines].
    pose proof (split_lines_nonempty s) as Hne.
    destruct (c =? ascii_of_nat 10)%char.
    + cbn. rewrite IH. destruct (split_lines s); [contradiction|]. simpl. lia.
    + cbn. rewrite IH. destruct (split_lines s); [contradiction|]. simpl. lia.
Qed.

Lemma replace_newlines_facts_witness :
  replace_newlines "sem quebra" = "sem quebra".
Proof.
  apply (proj1 (proj2 replace_newlines_facts)). reflexivity.
Defined.

(** ** Stopping a send in flight *)

(** Cancellation is cooperative.  A stop that reaches the server while
    [verify()] is pending ends the send as interrupted, whatever [verify()]
    then reports, and nothing is submitted; a stop that arrives once
    [sendMail()] is under way cannot undo a delivery that succeeds: it is
    counted and answered as a success. *)
Theorem stop_takes_effect_before_submission (g : Globals) :
  isSending g = true ->
  (forall mo r,
      run {| globals := g; inflight := [AwaitVerify mo] |}
          [PostStopSending; VerifyDone 0 r] =
        Some ({| globals := finally g; inflight := [] |},
              [Respond 200 (plain_body true msg_stop_requested);
               Respond 500 (failure_body msg_interrupted false true)])) /\
  (forall result,
      run {| globals := g; inflight := [AwaitSendMail] |}
          [PostStopSending; SendMailDone 0 (Resolved result)] =
        Some ({| globals := finally (incr_emailCount g); inflight := [] |},
              [Respond 200 (plain_body true msg_stop_requested);
               Respond 200 (success_body result (emailCount g + 1))])).
Proof.
  intros Hbusy. split.
  - intros mo r. cbn [run].
    rewrite (stop_while_sending {| globals := g; inflight := [AwaitVerify mo] |} Hbusy).
    cbn [step globals inflight nth_error].
    unfold send_gmail_verified, await, bind, checkpoint, catch_with, resume.
    destruct r as [[]|e]; reflexivity.
  - intros result. cbn [run].
    rewrite (stop_while_sending {| globals := g; inflight := [AwaitSendMail] |} Hbusy).
    reflexivity.
Qed.

Lemma stop_takes_effect_before_submission_witness :
  run {| globals := holding; inflight := [AwaitVerify two_lines_mail] |}
      [PostStopSending; VerifyDone 0 (Resolved tt)] =
    Some ({| globals := finally holding; inflight := [] |},
          [Respond 200 (plain_body true msg_stop_requested);
           Respond 500 (failure_body msg_interrupted false true)]).
Proof.
  apply (proj1 (stop_takes_effect_before_submission holding eq_refl)).
Defined.

(** ** Instances of the statements above *)

Lemma failure_unanswered_iff_witness :
  response_status
    (out_effects (send_gmail_sent holding
       (Rejected {| code := Some "ESOCKET"; message := None |}))) = None.
Proof.
  apply (proj2 (proj1 (failure_unanswered_iff holding
                         {| code := Some "ESOCKET"; message := None |}))).
  repeat split; reflexivity.
Defined.

Lemma attachments_throw_iff_null_witness :
  exists e, map_attachments [VObj []; VNull] = Throw e.
Proof.
  apply (proj2 (attachments_throw_iff_null [VObj []; VNull])).
  left. right. left. reflexivity.
Defined.

Lemma arrival_status_table_witness :
  response_status (out_effects (run_turn initial (Arrive SendGmailSimple no_subject)))
  = Some 400.
Proof.
  apply (proj2 (proj1 (proj2 (arrival_status_table initial SendGmailSimple no_subject)))).
  split; reflexivity.
Defined.

Lemma one_response_per_turn_witness :
  filter is_response
    (out_effects (run_turn initial (Arrive SendGmail two_lines))) = [].
Proof.
  apply (proj1 (proj2 (one_response_per_turn initial (Arrive SendGmail two_lines)))).
  vm_compute. discriminate.
Defined.
